(** * gotrace / devtrace: call-stack annotation layer

    A shallow embedding of the stack-capture, filtering and
    signature-resolution pipeline of the [devtrace] package
    (stack_logger.go, types.go, context part of the package, and the older
    copy kept under gotrace/), with the properties of its design
    specification stated and proved over the embedding.

    Conventions of the embedding:
    - Go [int] values that are only compared (limits, line numbers) are [Z];
      slice indexes and lengths are [nat];
    - a [*Frame] is an address [fptr] into a frame store, a [*TraceContext]
      an optional address into a context store ([None] is Go's nil);
      slice elements of type [*Frame] are taken to be non-nil, as every
      producer in the package ([CreateFrame], the runtime fall-back) makes
      them;
    - [map[string]interface{}] is [gmap string Value]; a nil map and an empty
      map are both [∅] (the code never tells them apart);
    - [time.Time] is a count of nanoseconds from the zero instant. *)

From Stdlib Require Import ZArith String Ascii List Bool Lia.
From stdpp Require Import base option list gmap strings fin_maps pretty.

Import ListNotations.
Local Open Scope string_scope.
Local Open Scope list_scope.

(* ===================================================================== *)
(** ** The [strings] functions the package calls *)
(* ===================================================================== *)

Module GoStrings.

(** [strings.HasPrefix(s, prefix)]. *)
Definition HasPrefix (s prefix : string) : bool := String.prefix prefix s.

(** [strings.Contains(s, substr)]: [substr] starts at some offset of [s]. *)
Fixpoint Contains (s substr : string) : bool :=
  String.prefix substr s
  || match s with
     | EmptyString => false
     | String _ s' => Contains s' substr
     end.

(** [strings.HasSuffix(s, suffix)]:
    [len(s) >= len(suffix) && s[len(s)-len(suffix):] == suffix]. *)
Definition HasSuffix (s suffix : string) : bool :=
  (String.length suffix <=? String.length s)%nat
  && String.eqb
       (String.substring (String.length s - String.length suffix)
                         (String.length suffix) s)
       suffix.

(** [fmt.Sprintf("arg%d", i)] for a slice index [i]. *)
Definition argKey (i : nat) : string := "arg" +:+ pretty i.

End GoStrings.
Import GoStrings.

(* ===================================================================== *)
(** ** Data model (types.go, stack_logger.go) *)
(* ===================================================================== *)

(** Captured argument values ([interface{}]); the pipeline only stores and
    moves them. *)
Inductive Value : Type :=
| VNil : Value
| VInt : Z -> Value
| VStr : string -> Value.

#[global] Instance Value_eq_dec : EqDecision Value.
Proof. solve_decision. Defined.

Definition Time := Z.

(** [runtime.Frame], as far as [CreateFrame] fills it. *)
Record RuntimeFrame : Type := mkRuntimeFrame {
  rfFunction : string;
  rfFile : string;
  rfLine : Z
}.

Record Frame : Type := mkFrame {
  Function : string;
  Signature : string;
  File : string;
  Line : Z;
  Args : gmap string Value;
  StartTime : Time;
  EndTime : Time;
  Duration : Z;
  CallerInfo : option RuntimeFrame
}.

Definition zeroFrame : Frame :=
  mkFrame "" "" "" 0%Z ∅ 0%Z 0%Z 0%Z None.

#[global] Instance Frame_inhabited : Inhabited Frame := populate zeroFrame.

(** Addresses of frames and the store they point into. *)
Definition fptr := nat.
Abbreviation FrameStore := (gmap nat Frame).

Record StackLoggerOptions : Type := mkOptions {
  Prefix : string;
  Skip : Z;
  Limit : Z;
  ShowSnippet : Z;
  OnlyApp : bool;
  PreferApp : bool;
  AppPattern : string;
  ShowMeta : bool;
  Ascending : bool
}.

Definition DefaultStackLoggerOptions : StackLoggerOptions :=
  mkOptions "📞 CALL STACK" 2%Z 5%Z 2%Z false true "/" false true.

Definition withAscending (b : bool) (o : StackLoggerOptions) : StackLoggerOptions :=
  mkOptions (Prefix o) (Skip o) (Limit o) (ShowSnippet o) (OnlyApp o)
            (PreferApp o) (AppPattern o) (ShowMeta o) b.

(* ===================================================================== *)
(** ** Stack filter: [EnhancedLogger.filterFrames] *)
(* ===================================================================== *)

Module Filter.

Section WithStore.
Variable h : FrameStore.

(** The test of the first loop: the frame belongs to this library or to the
    Go runtime. *)
Definition isInternal (p : fptr) : bool :=
  Contains (Function (h !!! p)) "devtrace."
  || Contains (File (h !!! p)) "devtrace"
  || Contains (Function (h !!! p)) "runtime.".

Definition dropInternal (frames : list fptr) : list fptr :=
  List.filter (fun p => negb (isInternal p)) frames.

Definition isApp (pat : string) (p : fptr) : bool :=
  Contains (File (h !!! p)) pat.

(** The inner loop "Skip frames we already added":
    [for otherIndex < len(filtered) && appIndex > 0 { ... }].
    The guards keep every index in range, so [nth]'s default is never
    read. *)
Fixpoint skipAdded (fuel : nat) (filtered appFrames : list fptr)
         (appIndex otherIndex : nat) : nat :=
  match fuel with
  | O => otherIndex
  | S fuel' =>
      if (otherIndex <? length filtered)%nat && (0 <? appIndex)%nat then
        if Nat.eqb (nth otherIndex filtered O) (nth (appIndex - 1) appFrames O)
        then S otherIndex
        else skipAdded fuel' filtered appFrames appIndex (S otherIndex)
      else otherIndex
  end.

(** The outer loop of the "prefer application code" branch. *)
Fixpoint mixLoop (fuel : nat) (pat : string) (limit : Z)
         (filtered appFrames result : list fptr)
         (appIndex otherIndex : nat) : list fptr :=
  match fuel with
  | O => result
  | S fuel' =>
      if (Z.of_nat (length result) <? limit)%Z
         && ((appIndex <? length appFrames)%nat
             || (otherIndex <? length filtered)%nat)
      then
        let '(result1, appIndex1, otherIndex1) :=
          if (appIndex <? length appFrames)%nat then
            (result ++ [nth appIndex appFrames O], S appIndex, otherIndex)
          else if (otherIndex <? length filtered)%nat
                  && negb (isApp pat (nth otherIndex filtered O)) then
            (result ++ [nth otherIndex filtered O], appIndex, S otherIndex)
          else (result, appIndex, otherIndex) in
        let otherIndex2 :=
          skipAdded (length filtered) filtered appFrames appIndex1 otherIndex1 in
        mixLoop fuel' pat limit filtered appFrames result1 appIndex1 otherIndex2
      else result
  end.

(** Every pass of the outer loop advances [appIndex] or [otherIndex], so
    this many passes always reach the loop's own exit test (see
    [mixLoop_fuel]). *)
Definition mixFuel (filtered appFrames : list fptr) : nat :=
  S (length appFrames + length filtered).

Definition mixFrames (o : StackLoggerOptions) (filtered appFrames : list fptr)
  : list fptr :=
  mixLoop (mixFuel filtered appFrames) (AppPattern o) (Limit o)
          filtered appFrames [] 0 0.

(** "Apply app-specific filtering". *)
Definition appFilter (o : StackLoggerOptions) (filtered : list fptr)
  : list fptr :=
  if OnlyApp o || PreferApp o then
    let appFrames := List.filter (isApp (AppPattern o)) filtered in
    if (0 <? length appFrames)%nat && OnlyApp o then appFrames
    else if (0 <? length appFrames)%nat && PreferApp o then
      mixFrames o filtered appFrames
    else filtered
  else filtered.

(** The two-index swap loop that flips the slice in place. *)
Fixpoint swapLoop (fuel : nat) (l : list fptr) (i j : nat) : list fptr :=
  match fuel with
  | O => l
  | S fuel' =>
      if (i <? j)%nat then
        swapLoop fuel' (<[j := nth i l O]> (<[i := nth j l O]> l)) (S i) (j - 1)
      else l
  end.

Definition reverseInPlace (l : list fptr) : list fptr :=
  swapLoop (length l) l 0 (length l - 1).

(** [configuredLimit] of stack_logger.go: non-positive or above five means
    five. *)
Definition configuredLimit (o : StackLoggerOptions) : Z :=
  let c := Limit o in
  let c := if (c <=? 0)%Z then 5%Z else c in
  if (5 <? c)%Z then 5%Z else c.

(** [filtered[len(filtered)-n:]] under the guard [len(filtered) > n]. *)
Definition keepLast (n : nat) (l : list fptr) : list fptr :=
  if (n <? length l)%nat then skipn (length l - n) l else l.

(** The sequence the limit is applied to: own frames dropped, application
    preference applied. *)
Definition candidates (o : StackLoggerOptions) (frames : list fptr)
  : list fptr :=
  appFilter o (dropInternal frames).

(** [filterFrames] of stack_logger.go (package root). *)
Definition filterFrames (o : StackLoggerOptions) (frames : list fptr)
  : list fptr :=
  if (length frames =? 0)%nat then frames
  else
    let filtered := candidates o frames in
    let filtered := keepLast (Z.to_nat (configuredLimit o)) filtered in
    if negb (Ascending o) then reverseInPlace filtered else filtered.

End WithStore.

(** The older copy of the package kept under gotrace/: same loops, but the
    limit step has no ceiling and depends on the direction. *)
Module Old.
Section WithStore.
Variable h : FrameStore.

Definition applyLimit (o : StackLoggerOptions) (filtered : list fptr)
  : list fptr :=
  if (0 <? Limit o)%Z && (Limit o <? Z.of_nat (length filtered))%Z then
    if Ascending o then
      skipn (length filtered - Z.to_nat (Limit o)) filtered
    else firstn (Z.to_nat (Limit o)) filtered
  else filtered.

Definition filterFrames (o : StackLoggerOptions) (frames : list fptr)
  : list fptr :=
  if (length frames =? 0)%nat then frames
  else
    let filtered := candidates h o frames in
    let filtered := applyLimit o filtered in
    if negb (Ascending o) then reverseInPlace filtered else filtered.

End WithStore.
End Old.

End Filter.

(* ===================================================================== *)
(** ** Argument-name normalization: [normalizeFrameArgs] *)
(* ===================================================================== *)

Module Normalize.

(** First loop: [for i, param := range paramNames], started at index [i]. *)
Fixpoint renameLoop (args : gmap string Value) (paramNames : list string)
         (i : nat) (normalized : gmap string Value) : gmap string Value :=
  match paramNames with
  | [] => normalized
  | param :: rest =>
      let key := argKey i in
      match args !! key with
      | None => renameLoop args rest (S i) normalized
      | Some val =>
          let name := if String.eqb param "" then key else param in
          renameLoop args rest (S i) (<[name := val]> normalized)
      end
  end.

(** Second loop: [for k, v := range frame.Args], skipping every key that
    starts with "arg". The keys of a map are distinct, so the order in which
    Go visits them does not show in the result. *)
Definition copyLoop (args normalized : gmap string Value)
  : gmap string Value :=
  map_fold (fun k v acc => if HasPrefix k "arg" then acc else <[k := v]> acc)
           normalized args.

(** The map [frame.Args] holds when [normalizeFrameArgs] returns. *)
Definition normalizeArgs (args : gmap string Value) (paramNames : list string)
  : gmap string Value :=
  if (size args =? 0)%nat || (length paramNames =? 0)%nat then args
  else copyLoop args (renameLoop args paramNames 0 ∅).

Definition withArgs (f : Frame) (a : gmap string Value) : Frame :=
  mkFrame (Function f) (Signature f) (File f) (Line f) a
          (StartTime f) (EndTime f) (Duration f) (CallerInfo f).

(** [normalizeFrameArgs(frame, paramNames)]: the frame is rewritten in
    place, that is, in the store. *)
Definition normalizeFrameArgs (h : FrameStore) (frame : option fptr)
           (paramNames : list string) : FrameStore :=
  match frame with
  | None => h
  | Some p =>
      let f := h !!! p in
      if (size (Args f) =? 0)%nat || (length paramNames =? 0)%nat then h
      else
        <[p := withArgs f (copyLoop (Args f)
                                    (renameLoop (Args f) paramNames 0 ∅))]> h
  end.

(** A key of the positional placeholder pattern [arg<N>]: "arg" followed by
    one or more decimal digits. *)
Definition isDigit (c : ascii) : bool :=
  (48 <=? nat_of_ascii c)%nat && (nat_of_ascii c <=? 57)%nat.

Fixpoint allDigits (s : string) : bool :=
  match s with
  | EmptyString => true
  | String c s' => isDigit c && allDigits s'
  end.

Definition isPlaceholder (k : string) : bool :=
  HasPrefix k "arg"
  && (3 <? String.length k)%nat
  && allDigits (String.substring 3 (String.length k - 3) k).

End Normalize.

(* ===================================================================== *)
(** ** Signature resolver: syntax, cache entries *)
(* ===================================================================== *)

Module Sig.

(** What the resolver reads of [go/ast]: a field of a parameter or result
    list (its names and its type as [format.Node] prints it) and a top-level
    declaration. *)
Record Field : Type := mkField {
  Names : list string;
  TypeText : string
}.

Record FuncDecl : Type := mkFuncDecl {
  fdName : string;
  fdPosLine : Z;     (* fset.Position(fn.Pos()).Line *)
  fdEndLine : Z;     (* fset.Position(fn.End()).Line *)
  fdParams : option (list Field);   (* fn.Type.Params, nil or a list *)
  fdResults : option (list Field)   (* fn.Type.Results *)
}.

Inductive Decl : Type :=
| DFunc : FuncDecl -> Decl
| DGen : Decl.     (* import, const, type or var declaration *)

Record functionSignature : Type := mkFunctionSignature {
  name : string;
  startLine : Z;
  endLine : Z;
  signature : string;
  params : list string
}.

Record fileSignature : Type := mkFileSignature {
  functions : list functionSignature
}.

(** [strings.Join(elems, ", ")]. *)
Fixpoint joinComma (elems : list string) : string :=
  match elems with
  | [] => ""
  | [x] => x
  | x :: rest => x +:+ ", " +:+ joinComma rest
  end.

(** The rendering shared by the parameter loop and the result loop:
    an unnamed field gives its type, a named one "name type" per name. *)
Definition renderField (fld : Field) : list string :=
  match Names fld with
  | [] => [TypeText fld]
  | names => List.map (fun n => n +:+ " " +:+ TypeText fld) names
  end.

Definition extractParamNames (fn : FuncDecl) : list string :=
  match fdParams fn with
  | None => []
  | Some fields =>
      List.concat
        (List.map (fun fld => match Names fld with
                              | [] => [""]
                              | names => names
                              end) fields)
  end.

Definition formatFuncSignature (fn : FuncDecl) : string :=
  let paramsText :=
    match fdParams fn with
    | None => []
    | Some fields => List.concat (List.map renderField fields)
    end in
  let head := fdName fn +:+ "(" +:+ joinComma paramsText +:+ ")" in
  match fdResults fn with
  | None => head
  | Some [] => head
  | Some fields =>
      let results := List.concat (List.map renderField fields) in
      match fields with
      | [fld] =>
          match Names fld with
          | [] => head +:+ " " +:+ nth 0 results ""
          | _ => head +:+ " (" +:+ joinComma results +:+ ")"
          end
      | _ => head +:+ " (" +:+ joinComma results +:+ ")"
      end
  end.

(** The body of the loop over [astFile.Decls]. *)
Definition declSignatures (decls : list Decl) : list functionSignature :=
  List.concat
    (List.map (fun d => match d with
                        | DGen => []
                        | DFunc fn =>
                            [mkFunctionSignature (fdName fn) (fdPosLine fn)
                               (fdEndLine fn) (formatFuncSignature fn)
                               (extractParamNames fn)]
                        end) decls).

(** The loop of [getSignatureForLocation] over [entry.functions]: the first
    entry that passes both tests is returned. *)
Fixpoint findFunction (fns : list functionSignature) (line : Z)
         (functionName : string) : option functionSignature :=
  match fns with
  | [] => None
  | fn :: rest =>
      if (line <? startLine fn)%Z || (endLine fn <? line)%Z then
        findFunction rest line functionName
      else if negb (String.eqb functionName "")
              && negb (String.eqb (name fn) "")
              && negb (HasSuffix functionName (name fn)) then
        findFunction rest line functionName
      else Some fn
  end.

End Sig.

(* ===================================================================== *)
(** ** Process state and the monad of the stateful code *)
(* ===================================================================== *)

(** [TraceContext] of types.go. [Depth] is a Go [int]: its increments and
    decrements wrap at 64 bits. *)
Record TraceContext : Type := mkTraceContext {
  Frames : list fptr;
  Depth : Z;
  StartAt : Time
}.

#[global] Instance TraceContext_inhabited : Inhabited TraceContext :=
  populate (mkTraceContext [] 0%Z 0%Z).

Definition cptr := nat.

(** An argument of a log call: a plain value or a [*DebugVars]. *)
Inductive Arg : Type :=
| AVal : Value -> Arg
| ADebugVars : gmap string Value -> Arg.

(** What the package does to the world outside it. *)
Inductive Event : Type :=
| EvLog : nat -> string -> string -> list Arg -> Event   (* backend.Log(level, msg, args...) *)
| EvReadFile : string -> Event                    (* os.ReadFile / os.Open *)
| EvCallers : Z -> Event.                         (* runtime.Callers(skip, pc) *)

(** The package-level variables, the two stores the pointers refer to, the
    clock and call stack the runtime would report, and the effects so far. *)
Record State : Type := mkState {
  configEnabled : bool;                                   (* Config.Enabled *)
  signatureCache : gmap string (option Sig.fileSignature);
  globalContext : option cptr;
  contexts : gmap nat TraceContext;
  frames : gmap nat Frame;
  clock : Time;                                           (* time.Now() *)
  runtimeStack : list RuntimeFrame;
  effects : list Event
}.

Definition setCache (c : gmap string (option Sig.fileSignature)) (s : State) : State :=
  mkState (configEnabled s) c (globalContext s) (contexts s) (frames s)
          (clock s) (runtimeStack s) (effects s).
Definition setGlobal (g : option cptr) (s : State) : State :=
  mkState (configEnabled s) (signatureCache s) g (contexts s) (frames s)
          (clock s) (runtimeStack s) (effects s).
Definition setContexts (c : gmap nat TraceContext) (s : State) : State :=
  mkState (configEnabled s) (signatureCache s) (globalContext s) c (frames s)
          (clock s) (runtimeStack s) (effects s).
Definition setFrames (f : gmap nat Frame) (s : State) : State :=
  mkState (configEnabled s) (signatureCache s) (globalContext s) (contexts s) f
          (clock s) (runtimeStack s) (effects s).
Definition setEffects (e : list Event) (s : State) : State :=
  mkState (configEnabled s) (signatureCache s) (globalContext s) (contexts s)
          (frames s) (clock s) (runtimeStack s) e.

(** A call either returns a value and a new state, or panics. *)
Inductive Result (A : Type) : Type :=
| Ok : A -> State -> Result A
| Panic : Result A.
Arguments Ok {A} _ _.
Arguments Panic {A}.

Definition M (A : Type) : Type := State -> Result A.

#[global] Instance M_ret : MRet M := fun A a s => Ok a s.
#[global] Instance M_bind : MBind M :=
  fun A B f m s => match m s with
                   | Ok a s' => f a s'
                   | Panic => Panic
                   end.

Definition get : M State := fun s => Ok s s.
Definition modify (f : State -> State) : M unit := fun s => Ok tt (f s).
Definition panic {A : Type} : M A := fun _ => Panic.
Definition emit (e : Event) : M unit :=
  modify (fun s => setEffects (effects s ++ [e]) s).

(** Reading and writing through a [*TraceContext]; a nil pointer panics. *)
Definition loadCtx (tc : option cptr) : M TraceContext :=
  match tc with
  | None => panic
  | Some p => s ← get; mret (contexts s !!! p)
  end.
Definition storeCtx (tc : option cptr) (c : TraceContext) : M unit :=
  match tc with
  | None => panic
  | Some p => modify (fun s => setContexts (<[p := c]> (contexts s)) s)
  end.
(** [&TraceContext{...}]: a new object at an address not in use. *)
Definition allocCtx (c : TraceContext) : M (option cptr) :=
  s ← get;
  let p := fresh (dom (contexts s)) in
  modify (setContexts (<[p := c]> (contexts s)));;
  mret (Some p).

Definition loadFrame (p : fptr) : M Frame :=
  s ← get; mret (frames s !!! p).
Definition storeFrame (p : fptr) (f : Frame) : M unit :=
  modify (fun s => setFrames (<[p := f]> (frames s)) s).
Definition allocFrame (f : Frame) : M fptr :=
  s ← get;
  let p := fresh (dom (frames s)) in
  modify (setFrames (<[p := f]> (frames s)));;
  mret p.

Definition timeNow : M Time := s ← get; mret (clock s).

(** Go [int] arithmetic on 64 bits. *)
Definition int64 (z : Z) : Z := ((z + 2 ^ 63) mod 2 ^ 64 - 2 ^ 63)%Z.

(** [time.Time.IsZero] and [time.Time.Sub]; the latter saturates at the
    ends of [time.Duration]. *)
Definition IsZero (t : Time) : bool := (t =? 0)%Z.
Definition minDuration : Z := (- 2 ^ 63)%Z.
Definition maxDuration : Z := (2 ^ 63 - 1)%Z.
Definition Sub (t u : Time) : Z :=
  let d := (t - u)%Z in
  if (d <? minDuration)%Z then minDuration
  else if (maxDuration <? d)%Z then maxDuration
  else d.

(* ===================================================================== *)
(** ** Trace context (context part of the package) *)
(* ===================================================================== *)

Module Trace.

(** [context.Context] as the package uses it: the nil interface, the
    background context, and values attached under a key. The key
    [traceContextKey] has a type of its own, so no other key equals it. *)
Inductive Key : Type :=
| traceContextKey : Key
| otherKey : string -> Key.

Inductive CtxValue : Type :=
| TraceCtxValue : option cptr -> CtxValue   (* a *TraceContext, maybe nil *)
| OtherValue : Value -> CtxValue.

Inductive Carrier : Type :=
| NilCarrier : Carrier
| Background : Carrier
| WithValue : Carrier -> Key -> CtxValue -> Carrier.

Definition keyEqb (a b : Key) : bool :=
  match a, b with
  | traceContextKey, traceContextKey => true
  | otherKey x, otherKey y => String.eqb x y
  | _, _ => false
  end.

(** [ctx.Value(key)] on a non-nil carrier. *)
Fixpoint CarrierValue (ctx : Carrier) (key : Key) : option CtxValue :=
  match ctx with
  | NilCarrier => None
  | Background => None
  | WithValue parent k v =>
      if keyEqb k key then Some v else CarrierValue parent key
  end.

Definition newContext (now : Time) : TraceContext :=
  mkTraceContext [] 0%Z now.

Definition InitGlobalContext : M unit :=
  s ← get;
  match globalContext s with
  | None =>
      now ← timeNow;
      p ← allocCtx (newContext now);
      modify (setGlobal p)
  | Some _ => mret tt
  end.

Definition GetGlobalContext : M (option cptr) :=
  s ← get;
  match globalContext s with
  | None => now ← timeNow; allocCtx (newContext now)
  | Some p => mret (Some p)
  end.

(** [context.WithValue] panics on a nil parent. *)
Definition WithTraceContext (ctx : Carrier) (traceCtx : option cptr)
  : M Carrier :=
  match ctx with
  | NilCarrier => panic
  | _ => mret (WithValue ctx traceContextKey (TraceCtxValue traceCtx))
  end.

Definition FromContext (ctx : Carrier) : M (option cptr) :=
  match ctx with
  | NilCarrier => GetGlobalContext
  | _ =>
      match CarrierValue ctx traceContextKey with
      | Some (TraceCtxValue traceCtx) => mret traceCtx
      | _ => GetGlobalContext
      end
  end.


Definition Enter (tc : option cptr) (frame : fptr) : M unit :=
  match tc with
  | None => mret tt
  | Some _ =>
      c ← loadCtx tc;
      storeCtx tc (mkTraceContext (Frames c ++ [frame])
                                  (int64 (Depth c + 1)) (StartAt c))
  end.

Definition withEndTime (f : Frame) (t : Time) : Frame :=
  mkFrame (Function f) (Signature f) (File f) (Line f) (Args f)
          (StartTime f) t (Duration f) (CallerInfo f).
Definition withDuration (f : Frame) (d : Z) : Frame :=
  mkFrame (Function f) (Signature f) (File f) (Line f) (Args f)
          (StartTime f) (EndTime f) d (CallerInfo f).

Definition Leave (tc : option cptr) : M (option fptr) :=
  match tc with
  | None => mret None
  | Some _ =>
      c ← loadCtx tc;
      if (length (Frames c) =? 0)%nat then mret None
      else
        let frame := nth (length (Frames c) - 1) (Frames c) O in
        storeCtx tc (mkTraceContext (firstn (length (Frames c) - 1) (Frames c))
                                    (int64 (Depth c - 1)) (StartAt c));;
        now ← timeNow;
        f ← loadFrame frame;
        storeFrame frame (withEndTime f now);;
        f ← loadFrame frame;
        (if negb (IsZero (StartTime f)) then
           storeFrame frame (withDuration f (Sub (EndTime f) (StartTime f)))
         else mret tt);;
        mret (Some frame)
  end.

(** [Stack] returns a copy: a value of the model. *)
Definition Stack (tc : option cptr) : M (list fptr) :=
  match tc with
  | None => mret []
  | Some _ => c ← loadCtx tc; mret (Frames c)
  end.

Definition GetDepth (tc : option cptr) : M Z :=
  match tc with
  | None => mret 0%Z
  | Some _ => c ← loadCtx tc; mret (Depth c)
  end.

Definition GetCurrentFrame (tc : option cptr) : M (option fptr) :=
  match tc with
  | None => mret None
  | Some _ =>
      c ← loadCtx tc;
      if (length (Frames c) =? 0)%nat then mret None
      else mret (Some (nth (length (Frames c) - 1) (Frames c) O))
  end.


Definition GlobalEnter (frame : fptr) : M unit :=
  InitGlobalContext;;
  s ← get;
  Enter (globalContext s) frame.

Definition GlobalLeave : M (option fptr) :=
  s ← get;
  match globalContext s with
  | None => mret None
  | Some p => Leave (Some p)
  end.

Definition GlobalStack : M (list fptr) :=
  tc ← GetGlobalContext; Stack tc.

End Trace.

(* ===================================================================== *)
(** ** Enhanced logger: resolver with its cache, rendering, [LogWithStack] *)
(* ===================================================================== *)

Module Logger.

(** The collaborators outside the package: the file system, [go/parser],
    [bufio.Scanner], [fmt.Sprintf], [DebugVars.String] (whose text depends
    on the host's map iteration) and [filepath.Base]. *)
Record World : Type := mkWorld {
  readFile : string -> option string;
  parseFile : string -> string -> option (list Sig.Decl);
  scanLines : string -> option (list string);
  Sprintf : string -> list Arg -> string;
  varsString : gmap string Value -> string;
  Base : string -> string
}.

(** [EnhancedLogger]: its options and the backend it writes to. *)
Record EnhancedLogger : Type := mkEnhancedLogger {
  options : StackLoggerOptions;
  logger : nat
}.

(** The backend's [Log], called directly. *)
Definition backendLog (backend : nat) (level msg : string) (args : list Arg)
  : M unit :=
  emit (EvLog backend level msg args).

Definition newline : string := String (ascii_of_nat 10) EmptyString.

(** [strings.Join(parts, "\n")]. *)
Fixpoint joinLines (parts : list string) : string :=
  match parts with
  | [] => ""
  | [x] => x
  | x :: rest => x +:+ newline +:+ joinLines rest
  end.

(** [strings.TrimRight(s, "\n")]. *)
Fixpoint trimRightNewlines (s : string) : string :=
  match s with
  | EmptyString => EmptyString
  | String c s' =>
      let t := trimRightNewlines s' in
      if String.eqb t "" && Ascii.eqb c (ascii_of_nat 10) then EmptyString
      else String c t
  end.

(** [strings.LastIndex(s, "/")]. *)
Fixpoint lastIndexSlash (s : string) : option nat :=
  match s with
  | EmptyString => None
  | String c s' =>
      match lastIndexSlash s' with
      | Some i => Some (S i)
      | None => if Ascii.eqb c "/"%char then Some O else None
      end
  end.

Definition shortFunctionName (name : string) : string :=
  if String.eqb name "" then ""
  else match lastIndexSlash name with
       | Some idx =>
           String.substring (idx + 1) (String.length name - (idx + 1)) name
       | None => name
       end.

Section WithWorld.
Variable w : World.

Definition parseFileSignatures (file : string) : M (option Sig.fileSignature) :=
  emit (EvReadFile file);;
  match readFile w file with
  | None => mret None
  | Some data =>
      match parseFile w file data with
      | None => mret None
      | Some decls =>
          mret (Some (Sig.mkFileSignature (Sig.declSignatures decls)))
      end
  end.

Definition getSignatureForLocation (file : string) (line : Z)
           (functionName : string) : M (option Sig.functionSignature) :=
  if String.eqb file "" || (line <=? 0)%Z then mret None
  else
    s ← get;
    entry ← match signatureCache s !! file with
            | Some entry => mret entry
            | None =>
                entry ← parseFileSignatures file;
                modify (fun s => setCache (<[file := entry]> (signatureCache s)) s);;
                mret entry
            end;
    match entry with
    | None => mret None
    | Some e => mret (Sig.findFunction (Sig.functions e) line functionName)
    end.

Definition withSignature (f : Frame) (sg : string) : Frame :=
  mkFrame (Function f) sg (File f) (Line f) (Args f)
          (StartTime f) (EndTime f) (Duration f) (CallerInfo f).

Definition resolveFrameSignature (frame : option fptr) : M string :=
  match frame with
  | None => mret ""
  | Some p =>
      f ← loadFrame p;
      if negb (String.eqb (Signature f) "") then mret (Signature f)
      else
        r ← getSignatureForLocation (File f) (Line f) (Function f);
        match r with
        | Some fnSig =>
            storeFrame p (withSignature f (Sig.signature fnSig));;
            modify (fun s =>
                      setFrames (Normalize.normalizeFrameArgs
                                   (frames s) (Some p) (Sig.params fnSig)) s);;
            mret (Sig.signature fnSig)
        | None => mret (Function f)
        end
  end.

(** [getCodeSnippet]: [None] stands for the error result. *)
Definition snippetLines (lines : list string) (line : Z) (contextLines : Z)
  : string :=
  let start := Z.to_nat (Z.max 0 (line - contextLines - 1)) in
  let stop := Z.to_nat (Z.min (Z.of_nat (length lines)) (line + contextLines)) in
  let render i :=
    let lineNum := (Z.of_nat i + 1)%Z in
    let marker := if (lineNum =? line)%Z then ">" else " " in
    Sprintf w ("      %s %d %s" +:+ newline)
            [AVal (VStr marker); AVal (VInt lineNum);
             AVal (VStr (nth i lines ""))] in
  trimRightNewlines
    (String.concat "" (List.map render (seq start (stop - start)))).

Definition getCodeSnippet (filename : string) (line : Z) (contextLines : Z)
  : M (option string) :=
  if (contextLines <=? 0)%Z then mret (Some "")
  else
    emit (EvReadFile filename);;
    match readFile w filename with
    | None => mret None
    | Some data =>
        match scanLines w data with
        | None => mret None
        | Some lines =>
            if (line <=? 0)%Z || (Z.of_nat (length lines) <? line)%Z
            then mret None
            else mret (Some (snippetLines lines line contextLines))
        end
    end.

Definition formatFrame (el : EnhancedLogger) (frame : fptr) (index : nat)
  : M string :=
  displayName ← resolveFrameSignature (Some frame);
  let displayName :=
    if String.eqb displayName "" then "<anonymous>" else displayName in
  f ← loadFrame frame;
  let fileName := Base w (File f) in
  let header :=
    Sprintf w "  %d. %s:%d → %s"
            [AVal (VInt (Z.of_nat index + 1)); AVal (VStr fileName);
             AVal (VInt (Line f)); AVal (VStr displayName)] in
  snippetPart ←
    (if (0 <? ShowSnippet (options el))%Z && negb (String.eqb (File f) "") then
       r ← getCodeSnippet (File f) (Line f) (ShowSnippet (options el));
       match r with
       | Some snippet => if String.eqb snippet "" then mret [] else mret [snippet]
       | None => mret []
       end
     else mret []);
  let varsPart :=
    if (0 <? size (Args f))%nat then
      [Sprintf w "     Vars: %s" [AVal (VStr (varsString w (Args f)))]]
    else [] in
  let timePart :=
    if (0 <? Duration f)%Z && ShowMeta (options el) then
      [Sprintf w "     Time: %v" [AVal (VInt (Duration f))]]
    else [] in
  mret (joinLines ([header] ++ snippetPart ++ varsPart ++ timePart)).

Definition shortFrameLabel (frame : fptr) : M string :=
  sig ← resolveFrameSignature (Some frame);
  if negb (String.eqb sig "") then
    match String.index 0 "(" sig with
    | Some idx => mret (String.substring 0 idx sig)
    | None => mret sig
    end
  else
    f ← loadFrame frame;
    mret (shortFunctionName (Function f)).

Definition buildRouteLine (frames : list fptr) : M string :=
  if (length frames =? 0)%nat then mret ""
  else
    origin ← shortFrameLabel (nth 0 frames O);
    current ← shortFrameLabel (nth (length frames - 1) frames O);
    if String.eqb origin "" && String.eqb current "" then mret ""
    else if String.eqb origin "" then
      mret (Sprintf w "Route: → %s" [AVal (VStr current)])
    else if String.eqb current "" then
      mret (Sprintf w "Route: %s →" [AVal (VStr origin)])
    else if String.eqb origin current then
      mret (Sprintf w "Route: %s" [AVal (VStr current)])
    else
      mret (Sprintf w "Route: %s → %s" [AVal (VStr origin); AVal (VStr current)]).

(** The runtime fall-back of [getStackFrames]: one frame per entry the
    runtime reports, and one zero frame when it reports none (the loop body
    runs before [more] is tested). *)
Fixpoint allocRuntimeFrames (rs : list RuntimeFrame) : M (list fptr) :=
  match rs with
  | [] => mret []
  | r :: rest =>
      p ← allocFrame (mkFrame (rfFunction r) "" (rfFile r) (rfLine r) ∅
                              0%Z 0%Z 0%Z None);
      ps ← allocRuntimeFrames rest;
      mret (p :: ps)
  end.

Definition getStackFrames (el : EnhancedLogger) (ctx : Trace.Carrier)
  : M (list fptr) :=
  traceCtx ← Trace.FromContext ctx;
  stack ← Trace.Stack traceCtx;
  if (0 <? length stack)%nat then mret stack
  else
    emit (EvCallers (Skip (options el)));;
    s ← get;
    let pcs := firstn 50 (skipn (Z.to_nat (Skip (options el))) (runtimeStack s)) in
    allocRuntimeFrames (match pcs with
                        | [] => [mkRuntimeFrame "" "" 0%Z]
                        | _ => pcs
                        end).

Fixpoint formatFrames (el : EnhancedLogger) (frames : list fptr) (i : nat)
  : M (list string) :=
  match frames with
  | [] => mret []
  | frame :: rest =>
      part ← formatFrame el frame i;
      parts ← formatFrames el rest (S i);
      mret (part :: parts)
  end.

Definition debugVarsOf (args : list Arg) : list (gmap string Value) :=
  List.concat (List.map (fun a => match a with
                                  | ADebugVars dv => [dv]
                                  | AVal _ => []
                                  end) args).

Definition messageArgsOf (args : list Arg) : list Arg :=
  List.filter (fun a => match a with
                        | ADebugVars _ => false
                        | AVal _ => true
                        end) args.

Definition LogWithStack (el : EnhancedLogger) (ctx : Trace.Carrier)
           (level message : string) (args : list Arg) : M unit :=
  s ← get;
  if negb (configEnabled s) then
    backendLog (logger el) level message args
  else
    stack ← getStackFrames el ctx;
    s ← get;
    let filtered := Filter.filterFrames (frames s) (options el) stack in
    route ← buildRouteLine filtered;
    let routePart := if String.eqb route "" then [] else ["  " +:+ route] in
    frameParts ← formatFrames el filtered 0;
    let debugVars := debugVarsOf args in
    let messageArgs := messageArgsOf args in
    let varsPart :=
      if (0 <? length debugVars)%nat then
        (newline +:+ "Vars:") :: List.map (varsString w) debugVars
      else [] in
    let messagePart :=
      if (0 <? length messageArgs)%nat then
        Sprintf w (newline +:+ "Message Log: " +:+ message) messageArgs
      else newline +:+ "Message Log: " +:+ message in
    let completeMessage :=
      joinLines ([Prefix (options el)] ++ routePart ++ frameParts
                 ++ varsPart ++ [messagePart]) in
    backendLog (logger el) level completeMessage [].

End WithWorld.

End Logger.

(* ===================================================================== *)
(** ** Closed forms and cases the properties are stated with *)
(* ===================================================================== *)

(** Closed form of the mixing loop. *)
Module MixClosedForm.
Import Filter.

Section WithStore.
Variable h : FrameStore.
Variable pat : string.

(** The frames that follow the last application frame of [l] (all of [l]
    if it has none). *)
Fixpoint trailing (l : list fptr) : list fptr :=
  match l with
  | [] => []
  | p :: l' => if existsb (isApp h pat) (p :: l') then trailing l' else p :: l'
  end.

(** The closed form of the loop: the application frames, then at most one
    other frame, the one right after the last application frame. *)
Definition mixShape (limit : Z) (filtered : list fptr) : list fptr :=
  firstn (Z.to_nat limit)
         (List.filter (isApp h pat) filtered ++ firstn 1 (trailing filtered)).

End WithStore.

End MixClosedForm.

(** Stacks and options used as cases. *)
Module FilterCases.
Import Filter.

(** A frame of a library file and a frame of an application file. *)
Definition libFrame (fn : string) : Frame :=
  mkFrame fn "" "/lib/util.go" 10%Z ∅ 0%Z 0%Z 0%Z None.

Definition appFrame (fn : string) : Frame :=
  mkFrame fn "" "/app/main.go" 20%Z ∅ 0%Z 0%Z 0%Z None.

(** Six library frames at addresses 1 to 6. *)
Definition sixFrames : FrameStore :=
  <[1%nat := libFrame "lib.f1"]> (<[2%nat := libFrame "lib.f2"]>
  (<[3%nat := libFrame "lib.f3"]> (<[4%nat := libFrame "lib.f4"]>
  (<[5%nat := libFrame "lib.f5"]> (<[6%nat := libFrame "lib.f6"]> ∅))))).

(** A library frame, an application frame, two more library frames. *)
Definition mixedFrames : FrameStore :=
  <[1%nat := libFrame "lib.n1"]> (<[2%nat := appFrame "main.a1"]>
  (<[3%nat := libFrame "lib.n2"]> (<[4%nat := libFrame "lib.n3"]> ∅))).

Definition plainOptions (limit : Z) (ascending : bool) : StackLoggerOptions :=
  mkOptions "CALL STACK" 2%Z limit 0%Z false false "/app/" false ascending.

Definition preferAppOptions (limit : Z) : StackLoggerOptions :=
  mkOptions "CALL STACK" 2%Z limit 0%Z false true "/app/" false true.

(** The mixing step as the specification words it: every application
    frame in order, then the other frames in order, cut at the limit. *)
Definition mixAsSpecified (h : FrameStore) (o : StackLoggerOptions)
           (filtered : list fptr) : list fptr :=
  firstn (Z.to_nat (Limit o))
         (List.filter (isApp h (AppPattern o)) filtered
          ++ List.filter (fun p => negb (isApp h (AppPattern o) p)) filtered).

End FilterCases.

(** Closed form of the renaming loop. *)
Module NormalizeClosedForm.
Import Normalize.

(** The key the first loop writes for parameter [param] at index [i]. *)
Definition paramKey (param : string) (i : nat) : string :=
  if String.eqb param "" then argKey i else param.

(** The value the first loop leaves under [k]: that of the last index
    whose key is [k] and whose placeholder is present. *)
Fixpoint renamed (args : gmap string Value) (paramNames : list string)
         (i : nat) (k : string) : option Value :=
  match paramNames with
  | [] => None
  | param :: rest =>
      match renamed args rest (S i) k with
      | Some v => Some v
      | None => if String.eqb (paramKey param i) k then args !! argKey i
                else None
      end
  end.

(** No declared parameter name starts with "arg" (an unnamed parameter,
    the empty name, does not). *)
Definition plainNames (paramNames : list string) : Prop :=
  Forall (fun param => HasPrefix param "arg" = false) paramNames.

End NormalizeClosedForm.

(** Frames used as cases. *)
Module NormalizeCases.
Import Normalize.

Definition frameWithArgs (fn : string) (a : gmap string Value) : Frame :=
  mkFrame fn "" "/app/main.go" 20%Z a 0%Z 0%Z 0%Z None.

(** A frame as [TracedFunc.Call] makes it: three positional arguments,
    and one key of the caller's own. *)
Definition tracedCall : FrameStore :=
  {[ 1%nat := frameWithArgs "main.worker"
                (<["arg0" := VStr "ctx"]> (<["arg1" := VInt 42]>
                 (<["arg2" := VInt 3]> (<["id" := VInt 42]> ∅)))) ]}.

(** A frame of one positional argument. *)
Definition oneArgCall : FrameStore :=
  {[ 1%nat := frameWithArgs "main.run" {[ "arg0" := VInt 1 ]} ]}.

(** A frame as the instrumenting tool makes it for
    [func Printf(format string, args ...interface{})]: keyed by the
    parameter names. *)
Definition instrumentedCall : FrameStore :=
  {[ 1%nat := frameWithArgs "main.Printf"
                (<["format" := VStr "%d"]> (<["args" := VInt 7]> ∅)) ]}.

End NormalizeCases.

(** The resolver without its cache, and a file used as a case. *)
Module ResolverModel.
Import Sig Logger.

(** What reading and parsing [file] gives, with no cache in between. *)
Definition parsed (w : World) (file : string) : option fileSignature :=
  match readFile w file with
  | None => None
  | Some data =>
      match parseFile w file data with
      | None => None
      | Some decls => Some (mkFileSignature (declSignatures decls))
      end
  end.

(** Every cached entry is what parsing the file gives: the cache is only
    ever filled by [getSignatureForLocation], and source files do not change
    while the process runs. *)
Definition cacheAgrees (w : World) (s : State) : Prop :=
  forall (file : string) (entry : option fileSignature),
    signatureCache s !! file = Some entry -> entry = parsed w file.

(** The span of [fn] contains [line]. *)
Definition spans (line : Z) (fn : functionSignature) : bool :=
  (startLine fn <=? line)%Z && (line <=? endLine fn)%Z.

(** [fn] passes both tests of the lookup loop. *)
Definition accepts (line : Z) (functionName : string) (fn : functionSignature)
  : bool :=
  spans line fn
  && (String.eqb functionName "" || HasSuffix functionName (name fn)).

(** The answer of the resolver on a consistent cache. *)
Definition resolved (w : World) (file : string) (line : Z)
           (functionName : string) : option functionSignature :=
  if String.eqb file "" || (line <=? 0)%Z then None
  else match parsed w file with
       | None => None
       | Some e => findFunction (functions e) line functionName
       end.

(** A file of two functions written on overlapping lines:
    [func outer() {] on line 1, its closing brace on line 3 followed by
    [; func inner() {}] on the same line. *)
Definition overlapDecls : list Decl :=
  [ DFunc (mkFuncDecl "outer" 1%Z 3%Z (Some []) None);
    DFunc (mkFuncDecl "inner" 3%Z 3%Z (Some []) None) ].

(** A world with that one file; text rendering is irrelevant to
    resolution and kept trivial. *)
Definition overlapWorld : World :=
  mkWorld (fun file => if String.eqb file "/app/overlap.go"
                       then Some "source" else None)
          (fun _ _ => Some overlapDecls)
          (fun _ => Some [])
          (fun fmt _ => fmt)
          (fun _ => "{}")
          (fun path => path).

(** A process that has resolved nothing yet. *)
Definition freshState : State :=
  mkState true ∅ None ∅ ∅ 1000%Z [] [].

(** The two cache entries parsing that file gives. *)
Definition innerSignature : functionSignature :=
  mkFunctionSignature "inner" 3%Z 3%Z "inner()" [].

Definition outerSignature : functionSignature :=
  mkFunctionSignature "outer" 1%Z 3%Z "outer()" [].

End ResolverModel.

(** Programs over the trace context, and the outcome of Leave. *)
Module TraceCases.
Import Trace.

(** The two ways of reaching the fall-back context, each followed by a
    retrieval. *)
Definition pushThenGlobalStack (ctx : Carrier) (frame : fptr) : M (list fptr) :=
  tc ← FromContext ctx; Enter tc frame;; GlobalStack.

Definition pushThenFromContextStack (ctx : Carrier) (frame : fptr)
  : M (list fptr) :=
  tc ← FromContext ctx; Enter tc frame;; tc' ← FromContext ctx; Stack tc'.

Definition globalEnterThenGlobalStack (frame : fptr) : M (list fptr) :=
  GlobalEnter frame;; GlobalStack.

(** A process in which nothing has touched the global context yet. *)
Definition startState : State :=
  mkState true ∅ None ∅
          {[ 7%nat := mkFrame "main.handler" "" "/app/main.go" 12%Z ∅
                              900%Z 0%Z 0%Z None ]}
          1000%Z [] [].

(** The stack a successful call returns. *)
Definition returned {A : Type} (r : Result (list A)) : option (list A) :=
  match r with
  | Ok l _ => Some l
  | Panic => None
  end.

Definition globalAfter {A : Type} (r : Result A) : option (option cptr) :=
  match r with
  | Ok _ s => Some (globalContext s)
  | Panic => None
  end.

(** The frame [Leave] returns, as it stands in the store afterwards. *)
Definition stamped (f : Frame) (now : Time) : Frame :=
  let f' := withEndTime f now in
  if IsZero (StartTime f) then f'
  else withDuration f' (Sub now (StartTime f)).

End TraceCases.

(** Logger states used as cases. *)
Module LoggerCases.
Import Logger.

Definition demoLogger : EnhancedLogger :=
  mkEnhancedLogger DefaultStackLoggerOptions 1%nat.

(** The call stack the runtime reports inside [getStackFrames]. *)
Definition liveStack : list RuntimeFrame :=
  [ mkRuntimeFrame "runtime.Callers" "/go/src/runtime/extern.go" 325%Z;
    mkRuntimeFrame "devtrace.getStackFrames"
                   "/go/pkg/devtrace/stack_logger.go" 440%Z;
    mkRuntimeFrame "main.handler" "/app/overlap.go" 2%Z ].

(** A process with tracing switched off, and the same with tracing on. *)
Definition disabledState : State :=
  mkState false ∅ None ∅ ∅ 1000%Z liveStack [].

Definition enabledState : State :=
  mkState true ∅ None ∅ ∅ 1000%Z liveStack [].

Definition effectsOf {A : Type} (r : Result A) : list Event :=
  match r with
  | Ok _ s => effects s
  | Panic => []
  end.

End LoggerCases.

(** The two halves of a rendered signature. *)
Module SignatureParts.
Import Sig.

(** The parameter texts [formatFuncSignature] joins with ", ". *)
Definition renderedParams (fn : FuncDecl) : list string :=
  match fdParams fn with
  | None => []
  | Some fields => List.concat (List.map renderField fields)
  end.

(** What [formatFuncSignature] writes after the closing parenthesis. *)
Definition resultClause (fn : FuncDecl) : string :=
  match fdResults fn with
  | None => ""
  | Some [] => ""
  | Some fields =>
      let results := List.concat (List.map renderField fields) in
      match fields with
      | [fld] =>
          match Names fld with
          | [] => " " +:+ nth 0 results ""
          | _ => " (" +:+ joinComma results +:+ ")"
          end
      | _ => " (" +:+ joinComma results +:+ ")"
      end
  end.


End SignatureParts.

(** The invariant of a trace context, and what the global operations
    see. *)
Module TraceInvariant.

(** The depth counter equals the number of frames on the stack. *)
Definition depthOk (c : TraceContext) : Prop :=
  Depth c = Z.of_nat (length (Frames c)).

(** The stack of the global context, empty while there is none. *)
Definition globalFrames (s : State) : list fptr :=
  match globalContext s with
  | Some g => Frames (contexts s !!! g)
  | None => []
  end.

(** An effect other than a call of the logging backend. *)
Definition notLog (e : Event) : bool :=
  match e with
  | EvLog _ _ _ _ => false
  | _ => true
  end.

End TraceInvariant.

(** The level methods of the enhanced logger and the adapter of
    log_adapter.go. *)
Module LoggerAPI.
Import Logger.

(** [strings.TrimSuffix(s, suffix)]. *)
Definition TrimSuffix (s suffix : string) : string :=
  if HasSuffix s suffix
  then String.substring 0 (String.length s - String.length suffix) s
  else s.

Section WithWorld.
Variable w : World.

Definition Debug (el : EnhancedLogger) (ctx : Trace.Carrier) (message : string)
           (args : list Arg) : M unit :=
  LogWithStack w el ctx "DEBUG" message args.

Definition Info (el : EnhancedLogger) (ctx : Trace.Carrier) (message : string)
           (args : list Arg) : M unit :=
  LogWithStack w el ctx "INFO" message args.

Definition Warn (el : EnhancedLogger) (ctx : Trace.Carrier) (message : string)
           (args : list Arg) : M unit :=
  LogWithStack w el ctx "WARN" message args.

Definition Error (el : EnhancedLogger) (ctx : Trace.Carrier) (message : string)
           (args : list Arg) : M unit :=
  LogWithStack w el ctx "ERROR" message args.

(** [stackLogWriter.Write(p)]: the bytes written, as a string, go to the
    global enhanced logger [el] at level INFO; the result is [len(p)] and a
    nil error. *)
Definition Write (el : EnhancedLogger) (p : string) : M (nat * option string) :=
  let msg := TrimSuffix p newline in
  Info el Trace.Background msg [];;
  mret (String.length p, None).


End WithWorld.


(** A logger with its [ShowSnippet] option set to [n]. *)
Definition withShowSnippet (n : Z) (el : EnhancedLogger) : EnhancedLogger :=
  let o := options el in
  mkEnhancedLogger
    (mkOptions (Prefix o) (Skip o) (Limit o) n (OnlyApp o) (PreferApp o)
               (AppPattern o) (ShowMeta o) (Ascending o))
    (logger el).

(** The frame the runtime fall-back of [getStackFrames] makes of a
    runtime entry. *)
Definition runtimeFrameOf (r : RuntimeFrame) : Frame :=
  mkFrame (rfFunction r) "" (rfFile r) (rfLine r) ∅ 0%Z 0%Z 0%Z None.

(** A call that returns, and whose effects are none of them a call of the
    logging backend. *)
Definition quiet {A : Type} (m : M A) : Prop :=
  forall (s : State),
    exists (a : A) (s' : State) (evs : list Event),
      m s = Ok a s'
      /\ effects s' = effects s ++ evs
      /\ Forall (fun e => TraceInvariant.notLog e = true) evs.

End LoggerAPI.

(** More stacks and options used as cases. *)
Module MoreCases.

Definition onlyAppOptions : StackLoggerOptions :=
  mkOptions "CALL STACK" 2%Z 5%Z 0%Z true false "/app/" false true.

(** A process holding one frame, at address 1, located in the file of
    [ResolverModel.overlapWorld] (line 2, inside [outer]) and called with
    one positional argument. *)
Definition resolvableState : State :=
  mkState true ∅ None ∅
          {[ 1%nat := mkFrame "main.outer" "" "/app/overlap.go" 2%Z
                              {[ "arg0" := VInt 5 ]} 900%Z 0%Z 0%Z None ]}
          1000%Z [] [].

(** The same with the frame located in a file that cannot be read. *)
Definition unreadableState : State :=
  mkState true ∅ None ∅
          {[ 1%nat := mkFrame "main.gone" "" "/app/missing.go" 2%Z
                              {[ "arg0" := VInt 5 ]} 900%Z 0%Z 0%Z None ]}
          1000%Z [] [].

(** The same with a frame whose signature is already known. *)
Definition labelledState : State :=
  mkState true ∅ None ∅
          {[ 1%nat := mkFrame "github.com/acme/app.worker"
                              "worker(ctx context.Context, limit int) error"
                              "/app/worker.go" 2%Z ∅ 900%Z 0%Z 0%Z None ]}
          1000%Z [] [].

(** A process with one trace context, at address 0, holding the frame
    at address 7. *)
Definition oneFrameContextState : State :=
  mkState true ∅ None
          {[ 0%nat := mkTraceContext [7%nat] 1%Z 950%Z ]}
          {[ 7%nat := mkFrame "main.handler" "" "/app/main.go" 12%Z ∅
                              900%Z 0%Z 0%Z None ]}
          1000%Z [] [].


End MoreCases.

(* ===================================================================== *)
(** * Properties *)
(* ===================================================================== *)

(** Runs the monadic primitives of a call on the state it is applied to. *)
Ltac run_monad :=
  cbv beta iota zeta delta
      [mbind M_bind mret M_ret get modify emit panic timeNow
       loadCtx storeCtx allocCtx loadFrame storeFrame allocFrame].

(** ** The stack filter *)

Module FilterFacts.
Import Filter.

Lemma insert_at_length (l1 : list fptr) (x y : fptr) (l2 : list fptr) :
  <[length l1 := x]> (l1 ++ y :: l2) = l1 ++ x :: l2.
Proof.
  induction l1 as [|a l1 IH]; simpl; [reflexivity|].
  f_equal. exact IH.
Qed.

Lemma snoc_case (l : list fptr) :
  l = [] \/ exists (l' : list fptr) (y : fptr), l = l' ++ [y].
Proof.
  induction l as [|y l' _] using rev_ind; [left; reflexivity|].
  right. exists l', y. reflexivity.
Qed.

(** The swap loop on a slice [a ++ m ++ b], started at the two ends of [m],
    flips [m] and leaves [a] and [b] alone. *)
Lemma swapLoop_middle (n : nat) :
  forall (m : list fptr), (length m <= n)%nat ->
  forall (fuel : nat) (a b : list fptr), (length m <= fuel)%nat ->
    swapLoop fuel (a ++ m ++ b) (length a) (length a + length m - 1)
    = a ++ rev m ++ b.
Proof.
  induction n as [|n IH]; intros m Hn fuel a b Hfuel.
  - destruct m; simpl in Hn; [|lia].
    destruct fuel; simpl; [reflexivity|].
    replace (length a <? length a + 0 - 1)%nat with false; [reflexivity|].
    symmetry. apply Nat.ltb_ge. lia.
  - destruct m as [|x m1].
    + destruct fuel; simpl; [reflexivity|].
      replace (length a <? length a + 0 - 1)%nat with false; [reflexivity|].
      symmetry. apply Nat.ltb_ge. lia.
    + destruct (snoc_case m1) as [->|[m' [y ->]]].
      * destruct fuel; simpl; [reflexivity|].
        replace (length a <? length a + 1 - 1)%nat with false; [reflexivity|].
        symmetry. apply Nat.ltb_ge. lia.
      * simpl in Hn, Hfuel. rewrite length_app in Hn, Hfuel. simpl in Hn, Hfuel.
        destruct fuel as [|fuel]; [lia|].
        cbn [swapLoop].
        replace (length a + length (x :: m' ++ [y]) - 1)%nat
          with (length a + length m' + 1)%nat
          by (simpl; rewrite length_app; simpl; lia).
        replace (length a <? length a + length m' + 1)%nat with true
          by (symmetry; apply Nat.ltb_lt; lia).
        assert (Hi : nth (length a) (a ++ (x :: m' ++ [y]) ++ b) O = x)
          by (simpl; apply nth_middle).
        assert (Hj : nth (length a + length m' + 1)
                         (a ++ (x :: m' ++ [y]) ++ b) O = y).
        { replace (a ++ (x :: m' ++ [y]) ++ b)
            with ((a ++ x :: m') ++ y :: b)
            by (simpl; rewrite <- !app_assoc; reflexivity).
          replace (length a + length m' + 1)%nat with (length (a ++ x :: m'))
            by (rewrite length_app; simpl; lia).
          apply nth_middle. }
        rewrite Hi, Hj.
        replace (<[length a := y]> (a ++ (x :: m' ++ [y]) ++ b))
          with (a ++ y :: m' ++ y :: b).
        2:{ simpl. rewrite insert_at_length.
            rewrite <- app_assoc. reflexivity. }
        replace (<[(length a + length m' + 1)%nat := x]> (a ++ y :: m' ++ y :: b))
          with ((a ++ [y]) ++ m' ++ ([x] ++ b)).
        2:{ replace (a ++ y :: m' ++ y :: b) with ((a ++ y :: m') ++ y :: b)
              by (rewrite <- app_assoc; reflexivity).
            replace (length a + length m' + 1)%nat with (length (a ++ y :: m'))
              by (rewrite length_app; simpl; lia).
            rewrite insert_at_length. rewrite <- !app_assoc. reflexivity. }
        replace (S (length a)) with (length (a ++ [y]))
          by (rewrite length_app; simpl; lia).
        replace (length a + length m' + 1 - 1)%nat
          with (length (a ++ [y]) + length m' - 1)%nat
          by (rewrite length_app; simpl; lia).
        rewrite (IH m'); [|lia|lia].
        simpl. rewrite rev_app_distr. simpl.
        rewrite <- !app_assoc. reflexivity.
Qed.

(** The in-place flip is list reversal. *)
Lemma reverseInPlace_rev (l : list fptr) : reverseInPlace l = rev l.
Proof.
  unfold reverseInPlace.
  pose proof (swapLoop_middle (length l) l (Nat.le_refl _) (length l) [] []
                              (Nat.le_refl _)) as H.
  simpl in H. rewrite !app_nil_r in H. exact H.
Qed.

Lemma configuredLimit_range (o : StackLoggerOptions) :
  (1 <= configuredLimit o <= 5)%Z.
Proof.
  unfold configuredLimit.
  destruct (Z.leb_spec (Limit o) 0); simpl.
  - split; lia.
  - destruct (Z.ltb_spec 5 (Limit o)); lia.
Qed.

Lemma keepLast_length (n : nat) (l : list fptr) :
  length (keepLast n l) = Nat.min (length l) n.
Proof.
  unfold keepLast.
  destruct (Nat.ltb_spec n (length l)).
  - rewrite length_skipn. lia.
  - lia.
Qed.

Lemma keepLast_suffix (n : nat) (l : list fptr) :
  l = firstn (length l - n) l ++ keepLast n l.
Proof.
  unfold keepLast.
  destruct (Nat.ltb_spec n (length l)).
  - symmetry. apply firstn_skipn.
  - replace (length l - n)%nat with O by lia. reflexivity.
Qed.

Lemma candidates_withAscending (h : FrameStore) (b : bool)
      (o : StackLoggerOptions) (frames : list fptr) :
  candidates h (withAscending b o) frames = candidates h o frames.
Proof. reflexivity. Qed.

Lemma candidates_nil (h : FrameStore) (o : StackLoggerOptions) :
  candidates h o [] = [].
Proof.
  unfold candidates, appFilter. simpl.
  destruct (OnlyApp o), (PreferApp o); reflexivity.
Qed.

(** [filterFrames] of the package root, in closed form. *)
Lemma filterFrames_eq (h : FrameStore) (o : StackLoggerOptions)
      (frames : list fptr) :
  filterFrames h o frames
  = let kept := keepLast (Z.to_nat (configuredLimit o)) (candidates h o frames) in
    if Ascending o then kept else rev kept.
Proof.
  unfold filterFrames.
  destruct frames as [|p frames].
  - simpl. rewrite candidates_nil. unfold keepLast. simpl.
    destruct (Z.to_nat (configuredLimit o) <? 0)%nat; destruct (Ascending o);
      reflexivity.
  - cbn [length Nat.eqb]. cbv zeta.
    destruct (Ascending o); simpl; [reflexivity|].
    apply reverseInPlace_rev.
Qed.

(** The older copy, in closed form. *)
Lemma old_filterFrames_eq (h : FrameStore) (o : StackLoggerOptions)
      (frames : list fptr) :
  Old.filterFrames h o frames
  = let kept := Old.applyLimit o (candidates h o frames) in
    if Ascending o then kept else rev kept.
Proof.
  unfold Old.filterFrames.
  destruct frames as [|p frames].
  - simpl. rewrite candidates_nil. unfold Old.applyLimit.
    destruct (0 <? Limit o)%Z, (Limit o <? Z.of_nat (length (@nil fptr)))%Z,
      (Ascending o); simpl; rewrite ?firstn_nil, ?skipn_nil; reflexivity.
  - cbn [length Nat.eqb]. cbv zeta.
    destruct (Ascending o); simpl; [reflexivity|].
    apply reverseInPlace_rev.
Qed.

End FilterFacts.

(** ** Termination of the mixing loop *)

Module MixFacts.
Import Filter.

Lemma skipAdded_ge (fuel : nat) (filtered appFrames : list fptr)
      (appIndex otherIndex : nat) :
  (otherIndex <= skipAdded fuel filtered appFrames appIndex otherIndex)%nat.
Proof.
  revert otherIndex.
  induction fuel as [|fuel IH]; intros otherIndex; simpl; [lia|].
  destruct ((otherIndex <? length filtered)%nat && (0 <? appIndex)%nat); [|lia].
  destruct (Nat.eqb _ _); [lia|].
  specialize (IH (S otherIndex)). lia.
Qed.

Lemma skipAdded_progress (fuel : nat) (filtered appFrames : list fptr)
      (appIndex otherIndex : nat) :
  (otherIndex < length filtered)%nat -> (0 < appIndex)%nat -> (0 < fuel)%nat ->
  (otherIndex < skipAdded fuel filtered appFrames appIndex otherIndex)%nat.
Proof.
  intros Ho Ha Hf.
  destruct fuel as [|fuel]; [lia|]. simpl.
  replace (otherIndex <? length filtered)%nat with true
    by (symmetry; apply Nat.ltb_lt; lia).
  replace (0 <? appIndex)%nat with true
    by (symmetry; apply Nat.ltb_lt; lia).
  simpl. destruct (Nat.eqb _ _); [lia|].
  pose proof (skipAdded_ge fuel filtered appFrames appIndex (S otherIndex)).
  lia.
Qed.

Section WithStore.
Variable h : FrameStore.

(** Once the fuel exceeds what is left of the two slices, one more unit of
    fuel changes nothing: the loop stops on its own test. *)
Lemma mixLoop_fuel_step (pat : string) (limit : Z)
      (filtered appFrames : list fptr) :
  (0 < length appFrames)%nat ->
  forall (fuel : nat) (result : list fptr) (appIndex otherIndex : nat),
    ((length appFrames - appIndex) + (length filtered - otherIndex) < fuel)%nat ->
    mixLoop h (S fuel) pat limit filtered appFrames result appIndex otherIndex
    = mixLoop h fuel pat limit filtered appFrames result appIndex otherIndex.
Proof.
  intros Happ fuel.
  induction fuel as [|fuel IH]; intros result appIndex otherIndex Hm; [lia|].
  remember (S fuel) as n eqn:En.
  cbn [mixLoop]. subst n. cbn [mixLoop].
  destruct ((Z.of_nat (length result) <? limit)%Z
            && ((appIndex <? length appFrames)%nat
                || (otherIndex <? length filtered)%nat)) eqn:Hcond;
    [|reflexivity].
  apply andb_true_iff in Hcond as [_ Hcond].
  destruct (Nat.ltb_spec appIndex (length appFrames)) as [Ha|Ha].
  - apply IH.
    pose proof (skipAdded_ge (length filtered) filtered appFrames
                             (S appIndex) otherIndex).
    lia.
  - simpl in Hcond. apply Nat.ltb_lt in Hcond.
    replace (otherIndex <? length filtered)%nat with true
      by (symmetry; apply Nat.ltb_lt; lia).
    cbn [andb].
    destruct (negb (isApp h pat (nth otherIndex filtered O))).
    + apply IH.
      pose proof (skipAdded_ge (length filtered) filtered appFrames
                               appIndex (S otherIndex)).
      lia.
    + apply IH.
      pose proof (skipAdded_progress (length filtered) filtered appFrames
                                     appIndex otherIndex).
      lia.
Qed.

(** [mixFrames] returns what the Go loop returns: no amount of further
    fuel gives another result. *)
Lemma mixLoop_fuel (pat : string) (limit : Z) (filtered appFrames : list fptr)
      (extra : nat) :
  (0 < length appFrames)%nat ->
  mixLoop h (mixFuel filtered appFrames + extra) pat limit filtered appFrames
          [] 0 0
  = mixLoop h (mixFuel filtered appFrames) pat limit filtered appFrames [] 0 0.
Proof.
  intros Happ.
  induction extra as [|extra IH].
  - rewrite Nat.add_0_r. reflexivity.
  - rewrite Nat.add_succ_r, <- IH.
    apply mixLoop_fuel_step; [exact Happ|].
    unfold mixFuel. lia.
Qed.

End WithStore.
End MixFacts.

(** ** What the mixing loop returns *)

Module MixShape.
Import Filter.
Import MixClosedForm.

Section WithStore.
Variable h : FrameStore.
Variable pat : string.

Lemma trailing_no_app (l : list fptr) :
  List.filter (isApp h pat) l = [] -> trailing h pat l = l.
Proof.
  intros Hnone. destruct l as [|p l']; [reflexivity|].
  cbn [trailing].
  replace (existsb (isApp h pat) (p :: l')) with false; [reflexivity|].
  symmetry. apply not_true_is_false. intros Hex.
  apply existsb_exists in Hex as (x & Hin & Hx).
  assert (Hf : In x (List.filter (isApp h pat) (p :: l')))
    by (apply filter_In; split; assumption).
  rewrite Hnone in Hf. exact Hf.
Qed.

Lemma trailing_past_app (skipped : list fptr) (a : fptr) (rest : list fptr) :
  isApp h pat a = true ->
  trailing h pat (skipped ++ a :: rest) = trailing h pat rest.
Proof.
  intros Ha. induction skipped as [|x sk IH].
  - cbn [app trailing existsb]. rewrite Ha. reflexivity.
  - cbn [app trailing].
    replace (existsb (isApp h pat) (x :: sk ++ a :: rest)) with true;
      [exact IH|].
    symmetry. apply existsb_exists. exists a. split; [|exact Ha].
    right. apply in_or_app. right. left. reflexivity.
Qed.

(** The first application frame of a slice splits it. *)
Lemma filter_head_split (l : list fptr) (a : fptr) (apps : list fptr) :
  List.filter (isApp h pat) l = a :: apps ->
  exists (skipped rest : list fptr),
    l = skipped ++ a :: rest
    /\ Forall (fun x => isApp h pat x = false) skipped
    /\ isApp h pat a = true
    /\ List.filter (isApp h pat) rest = apps.
Proof.
  induction l as [|x l IH]; intros Hf; [discriminate|].
  cbn [List.filter] in Hf.
  destruct (isApp h pat x) eqn:Hx.
  - injection Hf as Heq Hrest. subst x. exists [], l.
    repeat split; [constructor|assumption..].
  - destruct (IH Hf) as (skipped & rest & -> & Hsk & Ha & Hrest).
    exists (x :: skipped), rest. repeat split; try assumption.
    constructor; assumption.
Qed.

(** The skip loop stops just past the frame it looks for ... *)
Lemma skipAdded_find (appFrames : list fptr) (appIndex : nat) (a : fptr)
      (rest : list fptr) :
  (0 < appIndex)%nat -> nth (appIndex - 1) appFrames O = a ->
  forall (skipped done : list fptr) (fuel : nat),
    Forall (fun x => x <> a) skipped ->
    (length skipped < fuel)%nat ->
    skipAdded fuel (done ++ skipped ++ a :: rest) appFrames appIndex (length done)
    = (length done + length skipped + 1)%nat.
Proof.
  intros Hpos Htarget.
  induction skipped as [|x sk IH]; intros done fuel Hne Hfuel;
    (destruct fuel as [|fuel]; [simpl in Hfuel; lia|]); cbn [skipAdded].
  - replace (length done <? length (done ++ [] ++ a :: rest))%nat with true
      by (symmetry; apply Nat.ltb_lt; rewrite length_app; simpl; lia).
    replace (0 <? appIndex)%nat with true by (symmetry; apply Nat.ltb_lt; lia).
    cbn [andb app]. rewrite nth_middle, Htarget, Nat.eqb_refl. simpl. lia.
  - replace (length done <? length (done ++ (x :: sk) ++ a :: rest))%nat with true
      by (symmetry; apply Nat.ltb_lt; rewrite length_app; simpl; lia).
    replace (0 <? appIndex)%nat with true by (symmetry; apply Nat.ltb_lt; lia).
    cbn [andb]. cbn [app]. rewrite nth_middle, Htarget.
    pose proof (Forall_inv Hne) as Hx. pose proof (Forall_inv_tail Hne) as Hsk.
    cbv beta in Hx.
    replace (Nat.eqb x a) with false by (symmetry; apply Nat.eqb_neq; exact Hx).
    replace (done ++ x :: sk ++ a :: rest) with ((done ++ [x]) ++ sk ++ a :: rest)
      by (rewrite <- app_assoc; reflexivity).
    replace (S (length done)) with (length (done ++ [x]))
      by (rewrite length_app; simpl; lia).
    rewrite (IH (done ++ [x]) fuel Hsk); [|simpl in Hfuel; lia].
    rewrite length_app. simpl. lia.
Qed.

(** ... and runs to the end of the slice when that frame is not ahead. *)
Lemma skipAdded_miss (appFrames : list fptr) (appIndex : nat) :
  (0 < appIndex)%nat ->
  forall (remaining done : list fptr) (fuel : nat),
    Forall (fun x => x <> nth (appIndex - 1) appFrames O) remaining ->
    (length remaining <= fuel)%nat ->
    skipAdded fuel (done ++ remaining) appFrames appIndex (length done)
    = length (done ++ remaining).
Proof.
  intros Hpos.
  induction remaining as [|x rem IH]; intros done fuel Hne Hfuel.
  - rewrite app_nil_r. destruct fuel as [|fuel]; cbn [skipAdded]; [reflexivity|].
    rewrite Nat.ltb_irrefl. reflexivity.
  - destruct fuel as [|fuel]; [simpl in Hfuel; lia|]. cbn [skipAdded].
    replace (length done <? length (done ++ x :: rem))%nat with true
      by (symmetry; apply Nat.ltb_lt; rewrite length_app; simpl; lia).
    replace (0 <? appIndex)%nat with true by (symmetry; apply Nat.ltb_lt; lia).
    cbn [andb]. rewrite nth_middle.
    pose proof (Forall_inv Hne) as Hx. pose proof (Forall_inv_tail Hne) as Hrem.
    cbv beta in Hx.
    replace (Nat.eqb x (nth (appIndex - 1) appFrames O)) with false
      by (symmetry; apply Nat.eqb_neq; exact Hx).
    replace (done ++ x :: rem) with ((done ++ [x]) ++ rem)
      by (rewrite <- app_assoc; reflexivity).
    replace (S (length done)) with (length (done ++ [x]))
      by (rewrite length_app; simpl; lia).
    apply IH; [exact Hrem|simpl in Hfuel; lia].
Qed.

Lemma firstn_one_more (n : nat) (a : fptr) (l : list fptr) :
  (0 < n)%nat -> firstn n (a :: l) = a :: firstn (n - 1) l.
Proof.
  intros Hn. destruct n as [|n]; [lia|].
  replace (S n - 1)%nat with n by lia. reflexivity.
Qed.

(** The loop invariant: [appsDone] have been added, [otherIndex] stands
    after the part [done] of the slice, and what is left of the slice
    holds exactly the application frames still to add. *)
Lemma mixLoop_invariant (limit : Z) (filtered appFrames : list fptr) :
  Forall (fun x => isApp h pat x = true) appFrames ->
  (0 < length appFrames)%nat ->
  forall (appsRest appsDone done rf : list fptr) (fuel : nat)
         (result : list fptr),
    appFrames = appsDone ++ appsRest ->
    filtered = done ++ rf ->
    List.filter (isApp h pat) rf = appsRest ->
    (length appsRest + length rf < fuel)%nat ->
    mixLoop h fuel pat limit filtered appFrames result
            (length appsDone) (length done)
    = result ++ firstn (Z.to_nat limit - length result)
                       (appsRest ++ firstn 1 (trailing h pat rf)).
Proof.
  intros Happ Hpos.
  induction appsRest as [|a apps IH];
    intros appsDone done rf fuel result Hsplit Hfil Hrf Hfuel.
  - destruct fuel as [|fuel]; [lia|]. cbn [mixLoop].
    rewrite app_nil_r in Hsplit. subst appsDone.
    rewrite Nat.ltb_irrefl. cbn [orb].
    destruct (Z.ltb_spec (Z.of_nat (length result)) limit) as [Hlt|Hge];
      cbn [andb].
    2:{ replace (Z.to_nat limit - length result)%nat with O by lia.
        cbn [firstn]. rewrite app_nil_r. reflexivity. }
    rewrite (trailing_no_app rf Hrf). cbn [app].
    destruct rf as [|t ts].
    + rewrite app_nil_r in Hfil. subst filtered.
      rewrite Nat.ltb_irrefl. cbn [firstn].
      rewrite firstn_nil, app_nil_r. reflexivity.
    + assert (Ht : isApp h pat t = false).
      { cbn [List.filter] in Hrf. destruct (isApp h pat t);
          [discriminate|reflexivity]. }
      assert (Hts : Forall (fun x => isApp h pat x = false) ts).
      { cbn [List.filter] in Hrf. rewrite Ht in Hrf.
        apply List.Forall_forall. intros x Hx.
        destruct (isApp h pat x) eqn:Hax; [|reflexivity].
        assert (Hin : In x (List.filter (isApp h pat) ts))
          by (apply filter_In; split; assumption).
        rewrite Hrf in Hin. destruct Hin. }
      replace (length done <? length filtered)%nat with true
        by (symmetry; apply Nat.ltb_lt; subst filtered; rewrite length_app;
            simpl; lia).
      assert (Hnth : nth (length done) filtered O = t)
        by (subst filtered; apply nth_middle).
      rewrite Hnth, Ht. cbn [andb negb]. cbv beta iota zeta.
      assert (Hskip : skipAdded (length filtered) filtered appFrames
                                (length appFrames) (S (length done))
                      = length filtered).
      { subst filtered.
        replace (done ++ t :: ts) with ((done ++ [t]) ++ ts)
          by (rewrite <- app_assoc; reflexivity).
        replace (S (length done)) with (length (done ++ [t]))
          by (rewrite length_app; simpl; lia).
        apply skipAdded_miss; [exact Hpos| |rewrite !length_app; simpl; lia].
        apply List.Forall_forall. intros x Hx Heq.
        assert (Hxapp : isApp h pat x = true).
        { rewrite Heq.
          apply (proj1 (List.Forall_forall _ appFrames) Happ).
          apply nth_In. lia. }
        rewrite (proj1 (List.Forall_forall _ ts) Hts x Hx) in Hxapp.
        discriminate. }
      rewrite Hskip.
      replace (firstn (Z.to_nat limit - length result) (firstn 1 (t :: ts)))
        with [t].
      2:{ cbn [firstn]. rewrite firstn_one_more by lia.
          rewrite firstn_nil. reflexivity. }
      destruct fuel as [|fuel]; cbn [mixLoop]; [reflexivity|].
      rewrite !Nat.ltb_irrefl. cbn [orb]. rewrite andb_false_r. reflexivity.
  - destruct (filter_head_split rf a apps Hrf)
      as (skipped & rest & Hrfeq & Hsk & Ha & Hrest).
    subst rf.
    destruct fuel as [|fuel]; [simpl in Hfuel; lia|]. cbn [mixLoop].
    replace (length appsDone <? length appFrames)%nat with true
      by (symmetry; apply Nat.ltb_lt; subst appFrames; rewrite length_app;
          simpl; lia).
    cbn [orb].
    destruct (Z.ltb_spec (Z.of_nat (length result)) limit) as [Hlt|Hge];
      cbn [andb].
    2:{ replace (Z.to_nat limit - length result)%nat with O by lia.
        cbn [firstn]. rewrite app_nil_r. reflexivity. }
    cbv beta iota zeta.
    assert (Hnth : nth (length appsDone) appFrames O = a)
      by (subst appFrames; apply nth_middle).
    rewrite Hnth.
    assert (Hskip : skipAdded (length filtered) filtered appFrames
                              (S (length appsDone)) (length done)
                    = (length done + length skipped + 1)%nat).
    { subst filtered.
      apply skipAdded_find.
      - lia.
      - replace (S (length appsDone) - 1)%nat with (length appsDone) by lia.
        exact Hnth.
      - apply List.Forall_forall. intros x Hx Heq. subst x.
        rewrite (proj1 (List.Forall_forall _ skipped) Hsk a Hx) in Ha.
        discriminate.
      - rewrite !length_app. simpl. lia. }
    rewrite Hskip.
    replace (S (length appsDone)) with (length (appsDone ++ [a]))
      by (rewrite length_app; simpl; lia).
    replace (length done + length skipped + 1)%nat
      with (length (done ++ skipped ++ [a]))
      by (rewrite !length_app; simpl; lia).
    rewrite (IH (appsDone ++ [a]) (done ++ skipped ++ [a]) rest fuel
                (result ++ [a])).
    + rewrite trailing_past_app by exact Ha.
      cbn [app]. rewrite (firstn_one_more _ a) by lia.
      rewrite length_app. cbn [length].
      replace (Z.to_nat limit - (length result + 1))%nat
        with (Z.to_nat limit - length result - 1)%nat by lia.
      rewrite <- app_assoc. reflexivity.
    + rewrite <- app_assoc. exact Hsplit.
    + rewrite <- !app_assoc. exact Hfil.
    + exact Hrest.
    + rewrite length_app in Hfuel. simpl in Hfuel. lia.
Qed.

(** The mixing branch of [filterFrames], in closed form. *)
Lemma mixFrames_shape (o : StackLoggerOptions) (filtered : list fptr) :
  AppPattern o = pat ->
  List.filter (isApp h pat) filtered <> [] ->
  mixFrames h o filtered (List.filter (isApp h pat) filtered)
  = mixShape h pat (Limit o) filtered.
Proof.
  intros Hpat Hne. unfold mixFrames, mixShape. rewrite Hpat.
  set (appFrames := List.filter (isApp h pat) filtered) in *.
  assert (Hpos : (0 < length appFrames)%nat)
    by (destruct appFrames; [contradiction|simpl; lia]).
  assert (Happ : Forall (fun x => isApp h pat x = true) appFrames).
  { apply List.Forall_forall. intros x Hx. apply filter_In in Hx. tauto. }
  pose proof (mixLoop_invariant (Limit o) filtered appFrames Happ Hpos
                appFrames [] [] filtered (mixFuel filtered appFrames) []
                eq_refl eq_refl eq_refl) as Hinv.
  cbn [app length] in Hinv.
  rewrite Hinv by (unfold mixFuel; lia).
  rewrite Nat.sub_0_r. reflexivity.
Qed.

End WithStore.
End MixShape.

(** ** Display stack: bound, mixing, direction *)

Module FilterSpec.
Import Filter FilterFacts.
Import FilterCases.

(** C1, as amended. In the package root [filterFrames] shows at most five
    frames whatever the configured limit (a limit that is not positive or
    is above five counts as five), and what it shows are the innermost
    frames of the filtered sequence, that is, its tail. The older copy
    under gotrace/ has no ceiling: a positive limit bounds the output, any
    other limit leaves it whole, and on truncation it keeps the tail only
    when ascending is set, the head otherwise. *)
Theorem C1_display_stack_bound (h : FrameStore) (o : StackLoggerOptions)
        (frames : list fptr) :
  let cand := candidates h o frames in
  let shown := filterFrames h o frames in
  let old := Old.filterFrames h o frames in
  (length shown <= 5)%nat
  /\ configuredLimit o
     = (if (Limit o <=? 0)%Z || (5 <? Limit o)%Z then 5%Z else Limit o)
  /\ length shown = Nat.min (length cand) (Z.to_nat (configuredLimit o))
  /\ cand = firstn (length cand - length shown) cand
            ++ (if Ascending o then shown else rev shown)
  /\ length old
     = (if (0 <? Limit o)%Z then Nat.min (length cand) (Z.to_nat (Limit o))
        else length cand)
  /\ (if Ascending o
      then cand = firstn (length cand - length old) cand ++ old
      else cand = rev old ++ skipn (length old) cand).
Proof.
  cbv zeta.
  rewrite filterFrames_eq, old_filterFrames_eq. cbv zeta.
  set (cand := candidates h o frames).
  set (n := Z.to_nat (configuredLimit o)).
  pose proof (configuredLimit_range o) as Hr.
  assert (Hlen : length (if Ascending o then keepLast n cand
                         else rev (keepLast n cand))
                 = Nat.min (length cand) n).
  { destruct (Ascending o); rewrite ?length_rev; apply keepLast_length. }
  assert (Holdlen : length (if Ascending o then Old.applyLimit o cand
                            else rev (Old.applyLimit o cand))
                    = (if (0 <? Limit o)%Z
                       then Nat.min (length cand) (Z.to_nat (Limit o))
                       else length cand)).
  { unfold Old.applyLimit.
    destruct (Z.ltb_spec 0 (Limit o)) as [Hp|Hp]; cbn [andb].
    - destruct (Z.ltb_spec (Limit o) (Z.of_nat (length cand))) as [Hl|Hl].
      + destruct (Ascending o); rewrite ?length_rev, ?length_skipn, ?length_firstn;
          lia.
      + destruct (Ascending o); rewrite ?length_rev; lia.
    - destruct (Ascending o); rewrite ?length_rev; reflexivity. }
  repeat split.
  - rewrite Hlen. subst n. lia.
  - unfold configuredLimit.
    destruct (Z.leb_spec (Limit o) 0); destruct (Z.ltb_spec 5 (Limit o));
      simpl; try reflexivity; try lia.
  - exact Hlen.
  - rewrite Hlen.
    replace (length cand - Nat.min (length cand) n)%nat
      with (length cand - n)%nat by lia.
    destruct (Ascending o); rewrite ?rev_involutive; apply keepLast_suffix.
  - exact Holdlen.
  - rewrite Holdlen. unfold Old.applyLimit.
    destruct (Z.ltb_spec 0 (Limit o)) as [Hp|Hp]; cbn [andb].
    + destruct (Z.ltb_spec (Limit o) (Z.of_nat (length cand))) as [Hl|Hl].
      * destruct (Ascending o).
        -- replace (length cand - Nat.min (length cand) (Z.to_nat (Limit o)))%nat
             with (length cand - Z.to_nat (Limit o))%nat by lia.
           symmetry. apply firstn_skipn.
        -- rewrite rev_involutive.
           replace (Nat.min (length cand) (Z.to_nat (Limit o)))
             with (Z.to_nat (Limit o)) by lia.
           symmetry. apply firstn_skipn.
      * replace (Nat.min (length cand) (Z.to_nat (Limit o)))
          with (length cand) by lia.
        destruct (Ascending o).
        -- rewrite Nat.sub_diag. reflexivity.
        -- rewrite rev_involutive, skipn_all, app_nil_r. reflexivity.
    + destruct (Ascending o).
      * rewrite Nat.sub_diag. reflexivity.
      * rewrite rev_involutive, skipn_all, app_nil_r. reflexivity.
Qed.

(** C1 as stated fails on the older copy: with a configured limit of six
    and six frames on the stack, it shows six frames. *)
Lemma C1_old_copy_shows_six :
  ~ (length (Old.filterFrames sixFrames (plainOptions 6 true)
                              [1; 2; 3; 4; 5; 6]%nat) <= 5)%nat.
Proof. vm_compute. lia. Qed.

(** C2, the code at the failing input. With a library frame before the
    application frame and two after it, and room for five frames, the
    mixing loop returns the application frame and the one library frame
    that follows it; the two other library frames are never added, although
    the limit is not reached. The specified mixing returns all four. *)
Theorem C2_mix_stops_after_one_filler :
  appFilter mixedFrames (preferAppOptions 5) [1; 2; 3; 4]%nat = [2; 3]%nat
  /\ filterFrames mixedFrames (preferAppOptions 5) [1; 2; 3; 4]%nat = [2; 3]%nat
  /\ mixAsSpecified mixedFrames (preferAppOptions 5) [1; 2; 3; 4]%nat
     = [2; 1; 3; 4]%nat.
Proof. vm_compute. repeat split; reflexivity. Qed.

(** C3, as amended. In the package root the stack shown with
    ascending unset is the reverse of the stack shown with ascending set,
    for every input. In the older copy under gotrace/ this holds when no
    truncation takes place; on truncation the descending stack is the
    reverse of the first frames of the filtered sequence, not of the last
    ones. *)
Theorem C3_descending_is_reverse (h : FrameStore) (o : StackLoggerOptions)
        (frames : list fptr) :
  filterFrames h (withAscending false o) frames
  = rev (filterFrames h (withAscending true o) frames)
  /\ Old.filterFrames h (withAscending false o) frames
     = (if (0 <? Limit o)%Z
           && (Limit o <? Z.of_nat (length (candidates h o frames)))%Z
        then rev (firstn (Z.to_nat (Limit o)) (candidates h o frames))
        else rev (Old.filterFrames h (withAscending true o) frames)).
Proof.
  rewrite !filterFrames_eq, !old_filterFrames_eq.
  rewrite !candidates_withAscending. cbv zeta.
  change (Ascending (withAscending false o)) with false.
  change (Ascending (withAscending true o)) with true.
  change (configuredLimit (withAscending false o)) with (configuredLimit o).
  change (configuredLimit (withAscending true o)) with (configuredLimit o).
  cbv iota. split; [reflexivity|].
  unfold Old.applyLimit.
  change (Limit (withAscending false o)) with (Limit o).
  change (Limit (withAscending true o)) with (Limit o).
  change (Ascending (withAscending false o)) with false.
  change (Ascending (withAscending true o)) with true.
  destruct ((0 <? Limit o)%Z
            && (Limit o <? Z.of_nat (length (candidates h o frames)))%Z);
    reflexivity.
Qed.

(** C3 as stated fails on the older copy: with a limit of two and four
    frames, ascending shows frames 3, 4 and descending shows frames 2, 1. *)
Lemma C3_old_copy_not_reverse :
  Old.filterFrames sixFrames (plainOptions 2 true) [1; 2; 3; 4]%nat
    = [3; 4]%nat
  /\ Old.filterFrames sixFrames (plainOptions 2 false) [1; 2; 3; 4]%nat
    = [2; 1]%nat
  /\ Old.filterFrames sixFrames (plainOptions 2 false) [1; 2; 3; 4]%nat
     <> rev (Old.filterFrames sixFrames (plainOptions 2 true) [1; 2; 3; 4]%nat).
Proof. vm_compute. repeat split; try reflexivity. discriminate. Qed.

End FilterSpec.

(** ** Argument-name normalization *)

Module NormalizeFacts.
Import Normalize.
Import NormalizeClosedForm.

Lemma argKey_prefix (i : nat) : HasPrefix (argKey i) "arg" = true.
Proof.
  unfold HasPrefix, argKey. simpl.
  destruct (pretty i); reflexivity.
Qed.

Lemma argKey_inj (i j : nat) : argKey i = argKey j -> i = j.
Proof.
  unfold argKey. simpl. intros H.
  injection H as H. exact (pretty_nat_inj _ _ H).
Qed.

(** What the second loop leaves under a key. *)
Lemma copyLoop_lookup (args normalized : gmap string Value) (k : string) :
  copyLoop args normalized !! k
  = if HasPrefix k "arg" then normalized !! k
    else match args !! k with
         | Some v => Some v
         | None => normalized !! k
         end.
Proof.
  unfold copyLoop. revert k.
  apply (map_fold_weak_ind
           (fun (r : gmap string Value) (m : gmap string Value) =>
              forall k, r !! k
                        = if HasPrefix k "arg" then normalized !! k
                          else match m !! k with
                               | Some v => Some v
                               | None => normalized !! k
                               end)).
  - intros k. rewrite lookup_empty. destruct (HasPrefix k "arg"); reflexivity.
  - intros i x m r Hi IH k.
    destruct (HasPrefix i "arg") eqn:Hpi.
    + rewrite IH. destruct (HasPrefix k "arg") eqn:Hpk; [reflexivity|].
      rewrite lookup_insert_ne; [reflexivity|].
      intros ->. congruence.
    + destruct (decide (i = k)) as [->|Hne].
      * rewrite !lookup_insert_eq, Hpi. reflexivity.
      * rewrite !lookup_insert_ne by exact Hne. apply IH.
Qed.

Lemma renameLoop_lookup (args : gmap string Value) (paramNames : list string) :
  forall (i : nat) (normalized : gmap string Value) (k : string),
    renameLoop args paramNames i normalized !! k
    = match renamed args paramNames i k with
      | Some v => Some v
      | None => normalized !! k
      end.
Proof.
  induction paramNames as [|param rest IH]; intros i normalized k; simpl;
    [reflexivity|].
  fold (paramKey param i).
  destruct (args !! argKey i) as [val|] eqn:Harg.
  - rewrite IH. destruct (renamed args rest (S i) k); [reflexivity|].
    destruct (String.eqb_spec (paramKey param i) k) as [->|Hne].
    + apply lookup_insert_eq.
    + apply lookup_insert_ne. exact Hne.
  - rewrite IH. destruct (renamed args rest (S i) k); [reflexivity|].
    destruct (String.eqb (paramKey param i) k); reflexivity.
Qed.

(** Under [plainNames], a placeholder key is written by the first loop
    exactly for an unnamed parameter at that index. *)
Lemma renamed_argKey (args : gmap string Value) (paramNames : list string) :
  plainNames paramNames ->
  forall (i0 i : nat),
    renamed args paramNames i0 (argKey i)
    = match paramNames !! (i - i0)%nat with
      | Some param =>
          if String.eqb param "" && (i0 <=? i)%nat then args !! argKey i
          else None
      | None => None
      end.
Proof.
  intros Hplain. induction Hplain as [|param rest Hp _ IH]; intros i0 i.
  - simpl. reflexivity.
  - cbn [renamed]. rewrite IH.
    destruct (decide (i = i0)) as [->|Hne].
    + rewrite Nat.sub_diag, lookup_cons.
      replace (i0 - S i0)%nat with O by lia.
      replace (S i0 <=? i0)%nat with false
        by (symmetry; apply Nat.leb_gt; lia).
      rewrite Nat.leb_refl, andb_true_r.
      assert (Hnone : match rest !! O with
                      | Some q => if String.eqb q "" && false
                                  then args !! argKey i0 else None
                      | None => None
                      end = None).
      { destruct (rest !! O) as [q|]; [rewrite andb_false_r|]; reflexivity. }
      rewrite Hnone. unfold paramKey.
      destruct (String.eqb_spec param "") as [->|Hparam].
      * rewrite String.eqb_refl. reflexivity.
      * destruct (String.eqb_spec param (argKey i0)) as [->|_]; [|reflexivity].
        rewrite argKey_prefix in Hp. discriminate.
    + assert (Hhead : String.eqb (paramKey param i0) (argKey i) = false).
      { apply String.eqb_neq. unfold paramKey.
        destruct (String.eqb_spec param "") as [->|Hparam].
        - intros Heq. apply argKey_inj in Heq. lia.
        - intros ->. rewrite argKey_prefix in Hp. discriminate. }
      rewrite Hhead.
      destruct (Nat.le_gt_cases i0 i) as [Hle|Hgt].
      * replace (i - i0)%nat with (S (i - S i0)) by lia.
        rewrite lookup_cons.
        replace (S i0 <=? i)%nat with true
          by (symmetry; apply Nat.leb_le; lia).
        replace (i0 <=? i)%nat with true
          by (symmetry; apply Nat.leb_le; lia).
        destruct (rest !! (i - S i0)%nat) as [q|]; [|reflexivity].
        destruct (String.eqb q "" && true); [|reflexivity].
        destruct (args !! argKey i); reflexivity.
      * replace (i - i0)%nat with O by lia.
        replace (i - S i0)%nat with O by lia.
        rewrite lookup_cons.
        replace (S i0 <=? i)%nat with false
          by (symmetry; apply Nat.leb_gt; lia).
        replace (i0 <=? i)%nat with false
          by (symmetry; apply Nat.leb_gt; lia).
        rewrite andb_false_r.
        destruct (rest !! O) as [q|]; [rewrite andb_false_r|]; reflexivity.
Qed.

(** Two argument maps that agree on the placeholders of the unnamed
    parameters are renamed alike at every key that starts with "arg". *)
Lemma renamed_ext (X Y : gmap string Value) (paramNames : list string)
      (k : string) :
  plainNames paramNames -> HasPrefix k "arg" = true ->
  forall (i0 : nat),
    (forall (j : nat), paramNames !! j = Some "" ->
                       X !! argKey (i0 + j) = Y !! argKey (i0 + j)) ->
    renamed X paramNames i0 k = renamed Y paramNames i0 k.
Proof.
  intros Hplain Hk. induction Hplain as [|param rest Hp _ IH]; intros i0 Hagree.
  - reflexivity.
  - cbn [renamed]. rewrite (IH (S i0)).
    2:{ intros j Hj. specialize (Hagree (S j) Hj).
        rewrite Nat.add_succ_r in Hagree. exact Hagree. }
    destruct (renamed Y rest (S i0) k); [reflexivity|].
    unfold paramKey.
    destruct (String.eqb_spec param "") as [->|Hparam].
    + specialize (Hagree O eq_refl). rewrite Nat.add_0_r in Hagree.
      rewrite Hagree. reflexivity.
    + destruct (String.eqb_spec param k) as [->|_]; [|reflexivity].
      congruence.
Qed.

(** If the placeholders of the named parameters are absent, the first loop
    writes no key outside the "arg" keys. *)
Lemma renamed_plain_none (X : gmap string Value) (paramNames : list string)
      (k : string) :
  HasPrefix k "arg" = false ->
  forall (i0 : nat),
    (forall (j : nat) (param : string),
        paramNames !! j = Some param -> param <> "" ->
        X !! argKey (i0 + j) = None) ->
    renamed X paramNames i0 k = None.
Proof.
  intros Hk. induction paramNames as [|param rest IH]; intros i0 Habsent.
  - reflexivity.
  - cbn [renamed]. rewrite (IH (S i0)).
    2:{ intros j q Hj Hq. specialize (Habsent (S j) q Hj Hq).
        rewrite Nat.add_succ_r in Habsent. exact Habsent. }
    unfold paramKey.
    destruct (String.eqb_spec param "") as [->|Hparam].
    + destruct (String.eqb_spec (argKey i0) k) as [<-|_]; [|reflexivity].
      rewrite argKey_prefix in Hk. discriminate.
    + destruct (String.eqb param k); [|reflexivity].
      specialize (Habsent O param eq_refl Hparam).
      rewrite Nat.add_0_r in Habsent. exact Habsent.
Qed.

(** The placeholders left by one normalization. *)
Lemma normalized_argKey (args : gmap string Value) (paramNames : list string)
      (i : nat) :
  plainNames paramNames ->
  copyLoop args (renameLoop args paramNames 0 ∅) !! argKey i
  = match paramNames !! i with
    | Some param => if String.eqb param "" then args !! argKey i else None
    | None => None
    end.
Proof.
  intros Hplain.
  rewrite copyLoop_lookup, argKey_prefix, renameLoop_lookup, lookup_empty.
  rewrite (renamed_argKey args paramNames Hplain 0 i).
  rewrite Nat.sub_0_r. cbn [Nat.leb]. 
  destruct (paramNames !! i) as [param|]; [|reflexivity].
  rewrite andb_true_r.
  destruct (String.eqb param ""); [|reflexivity].
  destruct (args !! argKey i); reflexivity.
Qed.

(** Idempotence on the argument map, when no parameter name starts with
    "arg". *)
Lemma normalizeArgs_idem (args : gmap string Value) (paramNames : list string) :
  plainNames paramNames ->
  normalizeArgs (normalizeArgs args paramNames) paramNames
  = normalizeArgs args paramNames.
Proof.
  intros Hplain.
  destruct ((size args =? 0)%nat || (length paramNames =? 0)%nat) eqn:Hearly.
  - unfold normalizeArgs. rewrite !Hearly. reflexivity.
  - set (N := copyLoop args (renameLoop args paramNames 0 ∅)).
    assert (HN : normalizeArgs args paramNames = N)
      by (unfold normalizeArgs; rewrite Hearly; reflexivity).
    rewrite HN. unfold normalizeArgs.
    destruct ((size N =? 0)%nat || (length paramNames =? 0)%nat);
      [reflexivity|].
    apply map_eq. intros k.
    rewrite copyLoop_lookup, renameLoop_lookup, lookup_empty.
    destruct (HasPrefix k "arg") eqn:Hk.
    + rewrite (renamed_ext N args paramNames k Hplain Hk 0).
      2:{ intros j Hj. simpl. unfold N.
          rewrite (normalized_argKey args paramNames j Hplain), Hj.
          reflexivity. }
      unfold N. rewrite copyLoop_lookup, Hk, renameLoop_lookup, lookup_empty.
      reflexivity.
    + rewrite (renamed_plain_none N paramNames k Hk 0).
      2:{ intros j param Hj Hparam. simpl. unfold N.
          rewrite (normalized_argKey args paramNames j Hplain), Hj.
          apply String.eqb_neq in Hparam. rewrite Hparam. reflexivity. }
      destruct (N !! k); reflexivity.
Qed.

Lemma withArgs_withArgs (f : Frame) (a b : gmap string Value) :
  withArgs (withArgs f a) b = withArgs f b.
Proof. reflexivity. Qed.

(** The frame's map after the call is [normalizeArgs] of its map before. *)
Lemma normalizeFrameArgs_args (h : FrameStore) (p : fptr)
      (paramNames : list string) :
  Args (normalizeFrameArgs h (Some p) paramNames !!! p)
  = normalizeArgs (Args (h !!! p)) paramNames.
Proof.
  unfold normalizeFrameArgs, normalizeArgs.
  destruct ((size (Args (h !!! p)) =? 0)%nat || (length paramNames =? 0)%nat);
    [reflexivity|].
  rewrite lookup_total_insert_eq. reflexivity.
Qed.

Lemma normalizeFrameArgs_unfold (h : FrameStore) (p : fptr)
      (paramNames : list string) :
  normalizeFrameArgs h (Some p) paramNames
  = if (size (Args (h !!! p)) =? 0)%nat || (length paramNames =? 0)%nat then h
    else <[p := withArgs (h !!! p) (normalizeArgs (Args (h !!! p)) paramNames)]> h.
Proof.
  unfold normalizeFrameArgs, normalizeArgs.
  destruct ((size (Args (h !!! p)) =? 0)%nat || (length paramNames =? 0)%nat);
    reflexivity.
Qed.

End NormalizeFacts.

Module NormalizeSpec.
Import Normalize NormalizeClosedForm NormalizeFacts.
Import NormalizeCases.

(** C4, as amended. When no parameter name starts with "arg" (unnamed
    parameters are allowed), normalizing a frame's arguments a second time
    with the same parameter names changes nothing: the frame keeps the same
    argument mapping, and the store is the same. *)
Theorem C4_normalize_twice (h : FrameStore) (p : fptr)
        (paramNames : list string) :
  plainNames paramNames ->
  let once := normalizeFrameArgs h (Some p) paramNames in
  let twice := normalizeFrameArgs once (Some p) paramNames in
  Args (twice !!! p) = Args (once !!! p) /\ twice = once.
Proof.
  intros Hplain once twice.
  assert (Hargs : Args (twice !!! p) = Args (once !!! p)).
  { unfold twice. rewrite normalizeFrameArgs_args.
    unfold once. rewrite normalizeFrameArgs_args.
    apply normalizeArgs_idem. exact Hplain. }
  split; [exact Hargs|].
  unfold twice. rewrite normalizeFrameArgs_unfold.
  destruct ((size (Args (once !!! p)) =? 0)%nat
            || (length paramNames =? 0)%nat) eqn:Hearly; [reflexivity|].
  assert (Hn : normalizeArgs (Args (once !!! p)) paramNames = Args (once !!! p)).
  { unfold once at 1. rewrite normalizeFrameArgs_args.
    rewrite normalizeArgs_idem by exact Hplain.
    unfold once. rewrite normalizeFrameArgs_args. reflexivity. }
  rewrite Hn.
  unfold once in *. rewrite normalizeFrameArgs_unfold in *.
  destruct ((size (Args (h !!! p)) =? 0)%nat
            || (length paramNames =? 0)%nat) eqn:Hfirst.
  - rewrite Hfirst in Hearly. discriminate.
  - rewrite lookup_total_insert_eq. cbn [Args withArgs].
    rewrite withArgs_withArgs, insert_insert_eq. reflexivity.
Qed.

Lemma C4_normalize_twice_witness :
  plainNames ["ctx"; ""; "limit"]
  /\ (let once := normalizeFrameArgs tracedCall (Some 1%nat) ["ctx"; ""; "limit"] in
      let twice := normalizeFrameArgs once (Some 1%nat) ["ctx"; ""; "limit"] in
      Args (twice !!! 1%nat) = Args (once !!! 1%nat) /\ twice = once).
Proof.
  assert (H : plainNames ["ctx"; ""; "limit"])
    by (repeat constructor).
  split; [exact H|].
  exact (C4_normalize_twice tracedCall 1%nat ["ctx"; ""; "limit"] H).
Defined.

Lemma lookup_differs (a b : gmap string Value) (k : string) (v : Value) :
  a !! k = Some v -> b !! k = None -> b <> a.
Proof. intros Ha Hb ->. rewrite Ha in Hb. discriminate. Qed.

(** C4 as stated fails for a parameter called [args]: the first
    normalization files the argument under "args", the second one drops
    that key. *)
Lemma C4_args_parameter_lost_on_second_pass :
  let once := normalizeFrameArgs oneArgCall (Some 1%nat) ["args"] in
  let twice := normalizeFrameArgs once (Some 1%nat) ["args"] in
  Args (once !!! 1%nat) !! "args" = Some (VInt 1)
  /\ Args (twice !!! 1%nat) !! "args" = None
  /\ Args (twice !!! 1%nat) <> Args (once !!! 1%nat).
Proof.
  cbv zeta.
  assert (H1 : Args (normalizeFrameArgs oneArgCall (Some 1%nat) ["args"] !!! 1%nat)
               !! "args" = Some (VInt 1)) by (vm_compute; reflexivity).
  assert (H2 : Args (normalizeFrameArgs
                       (normalizeFrameArgs oneArgCall (Some 1%nat) ["args"])
                       (Some 1%nat) ["args"] !!! 1%nat)
               !! "args" = None) by (vm_compute; reflexivity).
  split; [exact H1|]. split; [exact H2|].
  exact (lookup_differs _ _ "args" (VInt 1) H1 H2).
Qed.

(** C5, as amended. Every captured-argument key that does not start with
    "arg" is kept by normalization with its value. *)
Theorem C5_plain_keys_preserved (h : FrameStore) (p : fptr)
        (paramNames : list string) (k : string) (v : Value) :
  HasPrefix k "arg" = false ->
  Args (h !!! p) !! k = Some v ->
  Args (normalizeFrameArgs h (Some p) paramNames !!! p) !! k = Some v.
Proof.
  intros Hk Hv. rewrite normalizeFrameArgs_args. unfold normalizeArgs.
  destruct ((size (Args (h !!! p)) =? 0)%nat || (length paramNames =? 0)%nat);
    [exact Hv|].
  rewrite copyLoop_lookup, Hk, Hv. reflexivity.
Qed.

Lemma C5_plain_keys_preserved_witness :
  HasPrefix "id" "arg" = false
  /\ Args (tracedCall !!! 1%nat) !! "id" = Some (VInt 42)
  /\ Args (normalizeFrameArgs tracedCall (Some 1%nat) ["ctx"; ""; "limit"]
           !!! 1%nat) !! "id" = Some (VInt 42).
Proof.
  assert (Hk : HasPrefix "id" "arg" = false) by reflexivity.
  assert (Hv : Args (tracedCall !!! 1%nat) !! "id" = Some (VInt 42))
    by (vm_compute; reflexivity).
  split; [exact Hk|]. split; [exact Hv|].
  exact (C5_plain_keys_preserved tracedCall 1%nat ["ctx"; ""; "limit"]
                                 "id" (VInt 42) Hk Hv).
Defined.

(** C5 as stated fails for the key "args": it is not of the pattern
    arg<N>, yet normalization drops it. *)
Lemma C5_args_key_dropped :
  isPlaceholder "args" = false
  /\ Args (instrumentedCall !!! 1%nat) !! "args" = Some (VInt 7)
  /\ Args (normalizeFrameArgs instrumentedCall (Some 1%nat) ["format"; "args"]
           !!! 1%nat) !! "args" = None.
Proof. vm_compute. repeat split; reflexivity. Qed.

End NormalizeSpec.

(** ** Signature resolution *)

Module ResolverSpec.
Import Sig Logger.
Import ResolverModel.

Lemma substring_at_end (s : string) :
  String.substring (String.length s) 0 s = "".
Proof. induction s as [|c s IH]; simpl; [reflexivity|exact IH]. Qed.

Lemma HasSuffix_empty (s : string) : HasSuffix s "" = true.
Proof.
  unfold HasSuffix. simpl. rewrite Nat.sub_0_r, substring_at_end. reflexivity.
Qed.

(** The skip tests of the loop are the negation of [accepts]. *)
Lemma findFunction_cons (fn : functionSignature) (rest : list functionSignature)
      (line : Z) (functionName : string) :
  findFunction (fn :: rest) line functionName
  = if accepts line functionName fn then Some fn
    else findFunction rest line functionName.
Proof.
  cbn [findFunction]. unfold accepts, spans.
  destruct (Z.ltb_spec line (startLine fn)) as [H1|H1];
    destruct (Z.leb_spec (startLine fn) line) as [H1'|H1']; try lia;
    cbn [orb andb]; [reflexivity|].
  destruct (Z.ltb_spec (endLine fn) line) as [H2|H2];
    destruct (Z.leb_spec line (endLine fn)) as [H2'|H2']; try lia;
    cbn [orb andb]; [reflexivity|].
  destruct (String.eqb functionName ""); cbn [negb orb andb]; [reflexivity|].
  destruct (String.eqb_spec (name fn) "") as [Hn|Hn]; cbn [negb andb].
  - rewrite Hn, HasSuffix_empty. reflexivity.
  - destruct (HasSuffix functionName (name fn)); reflexivity.
Qed.

(** The loop returns the first accepted entry in declaration order. *)
Lemma findFunction_first (fns : list functionSignature) (line : Z)
      (functionName : string) (fn : functionSignature) :
  findFunction fns line functionName = Some fn ->
  exists (before after : list functionSignature),
    fns = before ++ fn :: after
    /\ accepts line functionName fn = true
    /\ Forall (fun g => accepts line functionName g = false) before.
Proof.
  induction fns as [|g rest IH]; intros H.
  - discriminate.
  - rewrite findFunction_cons in H.
    destruct (accepts line functionName g) eqn:Hg.
    + injection H as ->. exists [], rest. repeat split; [exact Hg|constructor].
    + destruct (IH H) as (before & after & -> & Hacc & Hall).
      exists (g :: before), after. repeat split; [exact Hacc|].
      constructor; assumption.
Qed.

Lemma findFunction_none (fns : list functionSignature) (line : Z)
      (functionName : string) :
  Forall (fun g => spans line g = false) fns ->
  findFunction fns line functionName = None.
Proof.
  induction 1 as [|g rest Hg _ IH]; [reflexivity|].
  rewrite findFunction_cons. unfold accepts. rewrite Hg. exact IH.
Qed.

Section WithWorld.
Variable w : World.

(** On a consistent cache the resolver returns [resolved], never panics,
    and leaves the cache consistent. *)
Lemma getSignatureForLocation_resolved (file : string) (line : Z)
      (functionName : string) (s : State) :
  cacheAgrees w s ->
  exists (s' : State),
    getSignatureForLocation w file line functionName s
    = Ok (resolved w file line functionName) s'
    /\ cacheAgrees w s'.
Proof.
  intros Hc. unfold getSignatureForLocation, resolved.
  destruct (String.eqb file "" || (line <=? 0)%Z).
  - exists s. split; [reflexivity|exact Hc].
  - run_monad. destruct (signatureCache s !! file) as [entry|] eqn:Hfile.
    + rewrite <- (Hc file entry Hfile).
      exists s. split; [destruct entry; reflexivity|exact Hc].
    + exists (setCache (<[file := parsed w file]> (signatureCache s))
                       (setEffects (effects s ++ [EvReadFile file]) s)).
      unfold parseFileSignatures, parsed. run_monad.
      split.
      * destruct (readFile w file) as [data|];
          [destruct (parseFile w file data)|]; reflexivity.
      * intros f e. cbn. intros Hf.
        destruct (decide (file = f)) as [<-|Hne].
        -- rewrite lookup_insert_eq in Hf. injection Hf as <-.
           unfold parsed.
           destruct (readFile w file) as [data|]; cbn;
             [destruct (parseFile w file data); cbn|]; reflexivity.
        -- rewrite lookup_insert_ne in Hf by exact Hne.
           exact (Hc f e Hf).
Qed.

End WithWorld.

(** C6, as amended. On a cache that agrees with the files, signature
    resolution returns none when the file path is empty, when the line is
    not positive, when the file cannot be read, when it cannot be parsed,
    and when no declared span contains the line. When it returns a
    signature, that is the first function in declaration order whose span
    contains the line and whose declared name is a suffix of the candidate
    name, if a candidate is given. The call never panics and keeps the
    cache in agreement. *)
Theorem C6_signature_resolution (w : World) (file : string) (line : Z)
        (functionName : string) (s : State) :
  cacheAgrees w s ->
  let r := resolved w file line functionName in
  (exists (s' : State),
      getSignatureForLocation w file line functionName s = Ok r s'
      /\ cacheAgrees w s')
  /\ (file = "" -> r = None)
  /\ ((line <= 0)%Z -> r = None)
  /\ (readFile w file = None -> r = None)
  /\ (forall (data : string),
         readFile w file = Some data -> parseFile w file data = None ->
         r = None)
  /\ (forall (e : fileSignature),
         parsed w file = Some e ->
         Forall (fun g => spans line g = false) (functions e) -> r = None)
  /\ (forall (fn : functionSignature),
         r = Some fn ->
         exists (e : fileSignature) (before after : list functionSignature),
           parsed w file = Some e
           /\ functions e = before ++ fn :: after
           /\ (startLine fn <= line <= endLine fn)%Z
           /\ (functionName <> "" -> HasSuffix functionName (name fn) = true)
           /\ Forall (fun g => accepts line functionName g = false) before).
Proof.
  intros Hc r.
  split; [exact (getSignatureForLocation_resolved w file line functionName s Hc)|].
  subst r. unfold resolved.
  split; [intros ->; reflexivity|].
  split.
  { intros Hl. apply Z.leb_le in Hl. rewrite Hl, orb_true_r. reflexivity. }
  split.
  { intros Hr. unfold parsed. rewrite Hr.
    destruct (String.eqb file "" || (line <=? 0)%Z); reflexivity. }
  split.
  { intros data Hr Hp. unfold parsed. rewrite Hr, Hp.
    destruct (String.eqb file "" || (line <=? 0)%Z); reflexivity. }
  split.
  { intros e He Hall. rewrite He.
    destruct (String.eqb file "" || (line <=? 0)%Z); [reflexivity|].
    apply findFunction_none. exact Hall. }
  intros fn Hfn.
  destruct (String.eqb file "" || (line <=? 0)%Z); [discriminate|].
  destruct (parsed w file) as [e|]; [|discriminate].
  destruct (findFunction_first _ _ _ _ Hfn) as (before & after & Hsplit & Hacc & Hall).
  exists e, before, after.
  unfold accepts, spans in Hacc.
  apply andb_true_iff in Hacc as [Hspan Hname].
  apply andb_true_iff in Hspan as [Hs He].
  apply Z.leb_le in Hs. apply Z.leb_le in He.
  repeat split; try assumption.
  intros Hne. apply orb_true_iff in Hname as [Hempty|Hsuf]; [|exact Hsuf].
  apply String.eqb_eq in Hempty. contradiction.
Qed.

Lemma cacheAgrees_fresh (w : World) : cacheAgrees w freshState.
Proof. intros file entry H. cbn in H. rewrite lookup_empty in H. discriminate. Qed.

Lemma C6_signature_resolution_witness :
  cacheAgrees overlapWorld freshState
  /\ exists (s' : State),
       getSignatureForLocation overlapWorld "/app/overlap.go" 3%Z
                               "main.inner" freshState
       = Ok (Some innerSignature) s'.
Proof.
  split; [exact (cacheAgrees_fresh overlapWorld)|].
  destruct (C6_signature_resolution overlapWorld "/app/overlap.go" 3%Z
              "main.inner" freshState (cacheAgrees_fresh overlapWorld))
    as [[s' [Hrun _]] _].
  exists s'. exact Hrun.
Defined.

(** C6 as stated fails where two spans share a line: asked for line 3
    with no candidate name, the resolver returns [outer] (lines 1 to 3),
    the first match, although [inner] (line 3 alone) has the smaller span
    and contains the line too. *)
Lemma C6_first_match_not_smallest_span :
  getSignatureForLocation overlapWorld "/app/overlap.go" 3%Z "" freshState
  = Ok (Some outerSignature)
       (setCache {[ "/app/overlap.go" :=
                      Some (mkFileSignature [outerSignature; innerSignature]) ]}
                 (setEffects [EvReadFile "/app/overlap.go"] freshState))
  /\ accepts 3%Z "" innerSignature = true
  /\ (endLine innerSignature - startLine innerSignature
      < endLine outerSignature - startLine outerSignature)%Z.
Proof. vm_compute. repeat split; reflexivity. Qed.

End ResolverSpec.

(** ** Trace context *)

Module TraceSpec.
Import Trace.
Import TraceCases.

Lemma snoc_view (l : list fptr) :
  l = [] \/ exists (older : list fptr) (frame : fptr), l = older ++ [frame].
Proof.
  induction l as [|frame older _] using rev_ind; [left; reflexivity|].
  right. exists older, frame. reflexivity.
Qed.

(** C8, the code at the failing input. In a process where the global
    context has not been initialised, a frame pushed through
    [FromContext] and [Enter] with no trace context in the carrier is not
    in the stack a later fall-back retrieval returns, and the global
    context is still nil afterwards: [GetGlobalContext] hands out a new
    context on every call and never stores it. [GlobalEnter], which calls
    [InitGlobalContext] first, does keep the frame. *)
Theorem C8_fallback_push_is_lost :
  returned (pushThenGlobalStack NilCarrier 7%nat startState) = Some []
  /\ returned (pushThenGlobalStack Background 7%nat startState) = Some []
  /\ returned (pushThenFromContextStack NilCarrier 7%nat startState) = Some []
  /\ globalAfter (pushThenGlobalStack NilCarrier 7%nat startState) = Some None
  /\ returned (globalEnterThenGlobalStack 7%nat startState) = Some [7%nat].
Proof. vm_compute. repeat split; reflexivity. Qed.

Lemma bind_ok {A B : Type} (m : M A) (f : A -> M B) (s s' : State) (a : A) :
  m s = Ok a s' -> (m ≫= f) s = f a s'.
Proof. intros H. unfold mbind, M_bind. rewrite H. reflexivity. Qed.

Lemma FromContext_fallback (ctx : Carrier) :
  CarrierValue ctx traceContextKey = None -> FromContext ctx = GetGlobalContext.
Proof.
  intros Hv. destruct ctx; [reflexivity|reflexivity|].
  unfold FromContext. rewrite Hv. reflexivity.
Qed.

Lemma GetGlobalContext_initialised (s : State) (p : cptr) :
  globalContext s = Some p -> GetGlobalContext s = Ok (Some p) s.
Proof. intros Hg. unfold GetGlobalContext. run_monad. rewrite Hg. reflexivity. Qed.

(** Once the global context exists, the fall-back does act on it. *)
Lemma fallback_push_visible_after_init (s : State) (p : cptr) (ctx : Carrier)
      (frame : fptr) :
  globalContext s = Some p ->
  CarrierValue ctx traceContextKey = None ->
  returned (pushThenGlobalStack ctx frame s)
  = Some (Frames (contexts s !!! p) ++ [frame]).
Proof.
  intros Hg Hv. unfold pushThenGlobalStack.
  rewrite (FromContext_fallback ctx Hv).
  rewrite (bind_ok _ _ s s (Some p) (GetGlobalContext_initialised s p Hg)).
  unfold Enter, GlobalStack. run_monad.
  set (s1 := setContexts _ s).
  assert (Hg1 : globalContext s1 = Some p) by exact Hg.
  rewrite (GetGlobalContext_initialised s1 p Hg1).
  unfold Stack. run_monad. unfold returned, s1. cbn [contexts setContexts].
  rewrite lookup_total_insert_eq. reflexivity.
Qed.

(** C9. [Leave] on a nil context, or on a context whose stack is empty,
    returns none and changes nothing. On a stack [older ++ [frame]] it
    returns [frame], leaves [older] on the stack (and the depth one less),
    sets the frame's end time to the current time, and sets its duration to
    end time minus start time (as [time.Time.Sub] computes it, within the
    range of [time.Duration]) only if the start time is not the zero time; every other field of the frame and
    every other object is untouched. *)
Theorem C9_leave_pops_tail (s : State) (p : cptr) :
  Leave None s = Ok None s
  /\ Leave (Some p) s
     = (let c := contexts s !!! p in
        match rev (Frames c) with
        | [] => Ok None s
        | frame :: older =>
            Ok (Some frame)
               (setFrames
                  (<[frame := stamped (frames s !!! frame) (clock s)]> (frames s))
                  (setContexts
                     (<[p := mkTraceContext (rev older) (int64 (Depth c - 1))
                                            (StartAt c)]> (contexts s))
                     s))
        end)
  /\ (forall (f : Frame) (now : Time),
         EndTime (stamped f now) = now
         /\ Duration (stamped f now)
            = (if IsZero (StartTime f) then Duration f
               else Sub now (StartTime f))
         /\ Sub now (StartTime f)
            = Z.max minDuration (Z.min maxDuration (now - StartTime f))
         /\ Function (stamped f now) = Function f
         /\ Signature (stamped f now) = Signature f
         /\ File (stamped f now) = File f
         /\ Line (stamped f now) = Line f
         /\ Args (stamped f now) = Args f
         /\ StartTime (stamped f now) = StartTime f
         /\ CallerInfo (stamped f now) = CallerInfo f).
Proof.
  split; [reflexivity|]. split.
  - unfold Leave. run_monad.
    set (c := contexts s !!! p).
    destruct (snoc_view (Frames c)) as [Hnil|(older & frame & Hsnoc)].
    + rewrite Hnil. reflexivity.
    + rewrite Hsnoc, rev_app_distr, length_app. cbn [rev app length].
      replace (length older + 1 =? 0)%nat with false
        by (symmetry; apply Nat.eqb_neq; lia).
      replace (length older + 1 - 1)%nat with (length older) by lia.
      rewrite nth_middle, rev_involutive.
      rewrite firstn_app, firstn_all, Nat.sub_diag. cbn [firstn].
      rewrite app_nil_r.
      cbn [frames setContexts setFrames clock].
      rewrite lookup_total_insert_eq.
      unfold stamped. cbn [StartTime withEndTime EndTime].
      destruct (IsZero (StartTime (frames s !!! frame))); cbn [negb].
      * reflexivity.
      * cbn [frames setFrames]. rewrite insert_insert_eq. reflexivity.
  - intros f now. unfold stamped.
    assert (Hsub : Sub now (StartTime f)
                   = Z.max minDuration (Z.min maxDuration (now - StartTime f))).
    { unfold Sub, minDuration, maxDuration.
      destruct (Z.ltb_spec (now - StartTime f) (- 2 ^ 63));
        [lia|destruct (Z.ltb_spec (2 ^ 63 - 1) (now - StartTime f)); lia]. }
    destruct (IsZero (StartTime f)); cbn; repeat split; try reflexivity;
      exact Hsub.
Qed.

(** C10. On a nil context [Enter] does nothing, [Leave] and
    [GetCurrentFrame] return none and [Stack] returns the empty sequence;
    [FromContext] of a nil carrier is the global fall-back and returns a
    context; and on any context, nil or not, none of these calls panics. *)
Theorem C10_operations_total (s : State) (frame : fptr) :
  Enter None frame s = Ok tt s
  /\ Leave None s = Ok None s
  /\ GetCurrentFrame None s = Ok None s
  /\ Stack None s = Ok [] s
  /\ FromContext NilCarrier s = GetGlobalContext s
  /\ (exists (p : cptr) (s' : State), FromContext NilCarrier s = Ok (Some p) s')
  /\ (forall (tc : option cptr),
        Enter tc frame s <> Panic
        /\ Leave tc s <> Panic
        /\ GetCurrentFrame tc s <> Panic
        /\ Stack tc s <> Panic)
  /\ (forall (ctx : Carrier), FromContext ctx s <> Panic).
Proof.
  assert (Hglobal : exists (p : cptr) (s' : State),
             GetGlobalContext s = Ok (Some p) s').
  { unfold GetGlobalContext. run_monad.
    destruct (globalContext s) as [p|]; eexists; eexists; reflexivity. }
  repeat split; try reflexivity.
  - exact Hglobal.
  - destruct tc as [p|]; [|discriminate].
    unfold Enter. run_monad. discriminate.
  - destruct tc as [p|]; [|discriminate].
    unfold Leave. run_monad.
    destruct (length (Frames (contexts s !!! p)) =? 0)%nat; [discriminate|].
    cbn [frames setContexts setFrames clock].
    destruct (negb (IsZero (StartTime _))); discriminate.
  - destruct tc as [p|]; [|discriminate].
    unfold GetCurrentFrame. run_monad.
    destruct (length (Frames (contexts s !!! p)) =? 0)%nat; discriminate.
  - destruct tc as [p|]; [|discriminate].
    unfold Stack. run_monad. discriminate.
  - destruct Hglobal as (p & s' & Hg).
    destruct ctx as [| |parent k v]; unfold FromContext.
    + rewrite Hg. discriminate.
    + cbn. rewrite Hg. discriminate.
    + destruct (CarrierValue (WithValue parent k v) traceContextKey)
        as [[tc|other]|]; [discriminate|rewrite Hg; discriminate
                          |rewrite Hg; discriminate].
Qed.

End TraceSpec.

(** ** The enhanced logger *)

Module LoggerSpec.
Import Logger.
Import LoggerCases.

(** C7. With tracing disabled, [LogWithStack] is the backend's [Log]
    called with the same level, template and arguments: the one effect is
    that call, and nothing else of the state changes (no frame is
    collected or created, no file read, no cache entry made). *)
Theorem C7_disabled_is_backend_call (w : World) (el : EnhancedLogger)
        (ctx : Trace.Carrier) (level message : string) (args : list Arg)
        (s : State) :
  configEnabled s = false ->
  LogWithStack w el ctx level message args s
  = backendLog (logger el) level message args s
  /\ LogWithStack w el ctx level message args s
     = Ok tt (setEffects (effects s ++ [EvLog (logger el) level message args]) s).
Proof.
  intros Hoff. unfold LogWithStack, backendLog. run_monad.
  rewrite Hoff. cbn [negb]. split; reflexivity.
Qed.

Lemma C7_disabled_is_backend_call_witness :
  configEnabled disabledState = false
  /\ LogWithStack ResolverModel.overlapWorld demoLogger Trace.Background
                  "INFO" "worker %d" [AVal (VInt 3)] disabledState
     = Ok tt (setEffects [EvLog 1%nat "INFO" "worker %d" [AVal (VInt 3)]]
                         disabledState).
Proof.
  split; [reflexivity|].
  exact (proj2 (C7_disabled_is_backend_call
                  ResolverModel.overlapWorld demoLogger Trace.Background
                  "INFO" "worker %d" [AVal (VInt 3)] disabledState eq_refl)).
Defined.

(** With tracing enabled the same call captures the runtime stack and
    reads the source file before it reaches the backend. *)
Example enabled_call_collects_and_reads :
  List.map (fun e => match e with
                     | EvLog _ _ _ _ => "log"
                     | EvReadFile _ => "read"
                     | EvCallers _ => "callers"
                     end)
           (effectsOf (LogWithStack ResolverModel.overlapWorld demoLogger
                                    Trace.Background "INFO" "worker %d"
                                    [AVal (VInt 3)] enabledState))
  = ["callers"; "read"; "read"; "log"].
Proof. vm_compute. reflexivity. Qed.

End LoggerSpec.

(** ** More on the stack filter *)

Module FilterMore.
Import Filter FilterFacts MixClosedForm MixShape.

Section WithStore.
Variable h : FrameStore.

Lemma filter_sublist (f : fptr -> bool) (l : list fptr) :
  List.filter f l `sublist_of` l.
Proof.
  induction l as [|x l IH]; cbn [List.filter]; [constructor|].
  destruct (f x); constructor; exact IH.
Qed.

Lemma existsb_false_filter (f : fptr -> bool) (l : list fptr) :
  existsb f l = false -> List.filter f l = [].
Proof.
  induction l as [|x l IH]; [reflexivity|]. cbn [existsb List.filter].
  destruct (f x); cbn [orb]; [discriminate|exact IH].
Qed.

(** The slice splits into a part that holds all application frames and
    the frames after the last of them. *)
Lemma trailing_split (pat : string) (l : list fptr) :
  exists (before : list fptr),
    l = before ++ trailing h pat l
    /\ List.filter (isApp h pat) l = List.filter (isApp h pat) before.
Proof.
  induction l as [|p l IH].
  - exists []. split; reflexivity.
  - cbn [trailing].
    destruct (existsb (isApp h pat) (p :: l)) eqn:Hex.
    + destruct IH as (before & Hl & Hf).
      exists (p :: before). split.
      * cbn [app]. f_equal. exact Hl.
      * cbn [List.filter]. rewrite Hf. reflexivity.
    + exists []. split; [reflexivity|].
      rewrite (existsb_false_filter _ _ Hex). reflexivity.
Qed.

Lemma mixShape_sublist (pat : string) (limit : Z) (l : list fptr) :
  mixShape h pat limit l `sublist_of` l.
Proof.
  unfold mixShape.
  destruct (trailing_split pat l) as (before & Hl & Hf).
  transitivity (List.filter (isApp h pat) l ++ firstn 1 (trailing h pat l)).
  - apply sublist_take.
  - rewrite Hf. set (t := trailing h pat l) in *. clearbody t. subst l.
    apply sublist_app; [apply filter_sublist|apply sublist_take].
Qed.

Lemma appFilter_sublist (o : StackLoggerOptions) (l : list fptr) :
  appFilter h o l `sublist_of` l.
Proof.
  unfold appFilter.
  destruct (OnlyApp o || PreferApp o); [|reflexivity].
  destruct (List.filter (isApp h (AppPattern o)) l) as [|a apps] eqn:Hf;
    cbn [length Nat.ltb Nat.leb andb]; [reflexivity|].
  destruct (OnlyApp o).
  - rewrite <- Hf. apply filter_sublist.
  - destruct (PreferApp o); [|reflexivity].
    rewrite <- Hf.
    rewrite (mixFrames_shape h (AppPattern o) o l eq_refl)
      by (rewrite Hf; discriminate).
    apply mixShape_sublist.
Qed.

Lemma candidates_sublist (o : StackLoggerOptions) (frames : list fptr) :
  candidates h o frames `sublist_of` dropInternal h frames.
Proof. apply appFilter_sublist. Qed.

Lemma keepLast_sublist (n : nat) (l : list fptr) : keepLast n l `sublist_of` l.
Proof.
  unfold keepLast. destruct (n <? length l)%nat; [apply sublist_drop|reflexivity].
Qed.

Lemma applyLimit_sublist (o : StackLoggerOptions) (l : list fptr) :
  Old.applyLimit o l `sublist_of` l.
Proof.
  unfold Old.applyLimit.
  destruct ((0 <? Limit o)%Z && (Limit o <? Z.of_nat (length l))%Z);
    [|reflexivity].
  destruct (Ascending o); [apply sublist_drop|apply sublist_take].
Qed.

Lemma shown_sublists (o : StackLoggerOptions) (frames : list fptr) :
  (if Ascending o then filterFrames h o frames
   else rev (filterFrames h o frames))
    `sublist_of` dropInternal h frames
  /\ (if Ascending o then Old.filterFrames h o frames
      else rev (Old.filterFrames h o frames))
       `sublist_of` dropInternal h frames
  /\ dropInternal h frames `sublist_of` frames.
Proof.
  rewrite filterFrames_eq, old_filterFrames_eq. cbv zeta.
  split; [|split].
  - transitivity (candidates h o frames); [|apply candidates_sublist].
    destruct (Ascending o); rewrite ?rev_involutive; apply keepLast_sublist.
  - transitivity (candidates h o frames); [|apply candidates_sublist].
    destruct (Ascending o); rewrite ?rev_involutive; apply applyLimit_sublist.
  - apply filter_sublist.
Qed.

(** X1. Read in root-to-call-site order, the display stack is the input
    with frames left out: nothing is added, repeated or reordered. This
    holds for the package root and for the older copy. *)
Theorem X1_display_stack_is_subsequence (o : StackLoggerOptions)
        (frames : list fptr) :
  (if Ascending o then filterFrames h o frames
   else rev (filterFrames h o frames)) `sublist_of` frames
  /\ (if Ascending o then Old.filterFrames h o frames
      else rev (Old.filterFrames h o frames)) `sublist_of` frames.
Proof.
  destruct (shown_sublists o frames) as (Hroot & Hold & Hdrop).
  split; etransitivity; eassumption.
Qed.

Lemma shown_in_dropInternal (o : StackLoggerOptions) (frames : list fptr)
      (p : fptr) :
  In p (filterFrames h o frames) \/ In p (Old.filterFrames h o frames) ->
  In p (dropInternal h frames).
Proof.
  intros Hin.
  destruct (shown_sublists o frames) as (Hroot & Hold & _).
  apply list_elem_of_In.
  destruct Hin as [Hin|Hin].
  - eapply elem_of_sublist; [|exact Hroot].
    apply list_elem_of_In.
    destruct (Ascending o); [exact Hin|]. apply in_rev in Hin. exact Hin.
  - eapply elem_of_sublist; [|exact Hold].
    apply list_elem_of_In.
    destruct (Ascending o); [exact Hin|]. apply in_rev in Hin. exact Hin.
Qed.

Lemma shown_in_candidates (o : StackLoggerOptions) (frames : list fptr)
      (p : fptr) :
  In p (filterFrames h o frames) -> In p (candidates h o frames).
Proof.
  rewrite filterFrames_eq. cbv zeta. intros Hin.
  apply list_elem_of_In.
  eapply elem_of_sublist; [|apply (keepLast_sublist (Z.to_nat (configuredLimit o)))].
  apply list_elem_of_In.
  destruct (Ascending o); [exact Hin|]. apply in_rev in Hin. exact Hin.
Qed.

(** X2. Self-filtering: every frame of the display stack, of the package
    root or of the older copy, is one of the input frames, and neither its
    function name contains "devtrace." or "runtime." nor its file path
    contains "devtrace". *)
Theorem X2_shown_frames_are_foreign (o : StackLoggerOptions)
        (frames : list fptr) (p : fptr) :
  In p (filterFrames h o frames) \/ In p (Old.filterFrames h o frames) ->
  In p frames
  /\ Contains (Function (h !!! p)) "devtrace." = false
  /\ Contains (File (h !!! p)) "devtrace" = false
  /\ Contains (Function (h !!! p)) "runtime." = false.
Proof.
  intros Hin. apply shown_in_dropInternal in Hin.
  unfold dropInternal in Hin. apply filter_In in Hin as [Hin Hint].
  split; [exact Hin|].
  apply negb_true_iff in Hint. unfold isInternal in Hint.
  apply orb_false_iff in Hint as [Hint H3].
  apply orb_false_iff in Hint as [H1 H2].
  repeat split; assumption.
Qed.

(** X3. With onlyApp set, as soon as one frame that survives
    self-filtering lies in an application file, every frame of the display
    stack lies in an application file. *)
Theorem X3_only_app_shows_app_frames (o : StackLoggerOptions)
        (frames : list fptr) (a q : fptr) :
  OnlyApp o = true ->
  In a (dropInternal h frames) -> isApp h (AppPattern o) a = true ->
  In q (filterFrames h o frames) ->
  Contains (File (h !!! q)) (AppPattern o) = true.
Proof.
  intros Honly Ha Happ Hq.
  apply shown_in_candidates in Hq.
  unfold candidates, appFilter in Hq. rewrite Honly in Hq. cbn [orb] in Hq.
  destruct (List.filter (isApp h (AppPattern o)) (dropInternal h frames))
    as [|x apps] eqn:Hf.
  - assert (Hin : In a (List.filter (isApp h (AppPattern o))
                                    (dropInternal h frames)))
      by (apply filter_In; split; assumption).
    rewrite Hf in Hin. destruct Hin.
  - cbn [length Nat.ltb Nat.leb andb] in Hq. rewrite <- Hf in Hq.
    apply filter_In in Hq as [_ Hq]. exact Hq.
Qed.

(** X4. When no frame that survives self-filtering lies in an
    application file, onlyApp and preferApp have no effect: the display
    stack is cut from the self-filtered input itself, never empty because
    of the preference. *)
Theorem X4_no_app_frames_falls_back (o : StackLoggerOptions)
        (frames : list fptr) :
  Forall (fun p => isApp h (AppPattern o) p = false) (dropInternal h frames) ->
  candidates h o frames = dropInternal h frames
  /\ filterFrames h o frames
     = (let kept := keepLast (Z.to_nat (configuredLimit o))
                             (dropInternal h frames) in
        if Ascending o then kept else rev kept).
Proof.
  intros Hnone.
  assert (Hc : candidates h o frames = dropInternal h frames).
  { unfold candidates, appFilter.
    destruct (OnlyApp o || PreferApp o); [|reflexivity].
    replace (List.filter (isApp h (AppPattern o)) (dropInternal h frames))
      with (@nil fptr); [reflexivity|].
    symmetry. apply existsb_false_filter.
    apply not_true_is_false. intros Hex.
    apply existsb_exists in Hex as (x & Hx & Hax).
    rewrite (proj1 (List.Forall_forall _ _) Hnone x Hx) in Hax. discriminate. }
  split; [exact Hc|]. rewrite filterFrames_eq, Hc. reflexivity.
Qed.

Lemma candidates_mixed (o : StackLoggerOptions) (frames : list fptr) :
  PreferApp o = true -> OnlyApp o = false ->
  List.filter (isApp h (AppPattern o)) (dropInternal h frames) <> [] ->
  candidates h o frames
  = mixShape h (AppPattern o) (Limit o) (dropInternal h frames).
Proof.
  intros Hprefer Honly Hne.
  unfold candidates, appFilter. rewrite Hprefer, Honly. cbn [orb].
  destruct (List.filter (isApp h (AppPattern o)) (dropInternal h frames))
    as [|x apps] eqn:Hf; [contradiction|].
  cbn [length Nat.ltb Nat.leb andb]. rewrite <- Hf.
  apply (mixFrames_shape h (AppPattern o) o _ eq_refl).
  rewrite Hf. discriminate.
Qed.

(** X5. With preferApp set and onlyApp unset, when some surviving frame
    lies in an application file, the sequence handed to the limit step is:
    the application frames in their order, then at most one other frame
    (the one right after the last application frame), the whole cut to the
    first [Limit] frames. *)
Theorem X5_prefer_app_mix_closed_form (o : StackLoggerOptions)
        (frames : list fptr) :
  PreferApp o = true -> OnlyApp o = false ->
  List.filter (isApp h (AppPattern o)) (dropInternal h frames) <> [] ->
  candidates h o frames
  = firstn (Z.to_nat (Limit o))
           (List.filter (isApp h (AppPattern o)) (dropInternal h frames)
            ++ firstn 1 (trailing h (AppPattern o) (dropInternal h frames))).
Proof. intros Hprefer Honly Hne. apply candidates_mixed; assumption. Qed.

(** X6. The mixing loop tests the configured limit as it is: with
    preferApp set, onlyApp unset and a limit that is not positive, the
    display stack is empty as soon as one surviving frame lies in an
    application file, although the limit step would treat that limit as
    five. *)
Theorem X6_prefer_app_zero_limit_shows_nothing (o : StackLoggerOptions)
        (frames : list fptr) :
  PreferApp o = true -> OnlyApp o = false -> (Limit o <= 0)%Z ->
  List.filter (isApp h (AppPattern o)) (dropInternal h frames) <> [] ->
  filterFrames h o frames = [] /\ Old.filterFrames h o frames = [].
Proof.
  intros Hprefer Honly Hlimit Hne.
  assert (Hc : candidates h o frames = [])
    by (rewrite candidates_mixed by assumption; unfold mixShape;
        replace (Z.to_nat (Limit o)) with O by lia; reflexivity).
  rewrite filterFrames_eq, old_filterFrames_eq, Hc. cbv zeta.
  unfold keepLast, Old.applyLimit. cbn [length].
  destruct (Z.to_nat (configuredLimit o) <? 0)%nat,
    ((0 <? Limit o)%Z && (Limit o <? Z.of_nat 0)%Z), (Ascending o);
    cbn; rewrite ?firstn_nil, ?skipn_nil; split; reflexivity.
Qed.

End WithStore.

Lemma X2_shown_frames_are_foreign_witness :
  In 3%nat (filterFrames FilterCases.mixedFrames
                         (FilterCases.preferAppOptions 5) [1; 2; 3; 4]%nat)
  /\ In 3%nat [1; 2; 3; 4]%nat
  /\ Contains (Function (FilterCases.mixedFrames !!! 3%nat)) "devtrace." = false.
Proof.
  assert (Hin : In 3%nat (filterFrames FilterCases.mixedFrames
                            (FilterCases.preferAppOptions 5) [1; 2; 3; 4]%nat))
    by (vm_compute; right; left; reflexivity).
  split; [exact Hin|].
  destruct (X2_shown_frames_are_foreign FilterCases.mixedFrames
              (FilterCases.preferAppOptions 5) [1; 2; 3; 4]%nat 3%nat
              (or_introl Hin)) as (H1 & H2 & _).
  split; assumption.
Defined.

Lemma X3_only_app_shows_app_frames_witness :
  OnlyApp MoreCases.onlyAppOptions = true
  /\ In 2%nat (dropInternal FilterCases.mixedFrames [1; 2; 3; 4]%nat)
  /\ In 2%nat (filterFrames FilterCases.mixedFrames MoreCases.onlyAppOptions
                            [1; 2; 3; 4]%nat)
  /\ Contains (File (FilterCases.mixedFrames !!! 2%nat)) "/app/" = true.
Proof.
  assert (Ha : In 2%nat (dropInternal FilterCases.mixedFrames [1; 2; 3; 4]%nat))
    by (vm_compute; right; left; reflexivity).
  assert (Hq : In 2%nat (filterFrames FilterCases.mixedFrames MoreCases.onlyAppOptions
                                      [1; 2; 3; 4]%nat))
    by (vm_compute; left; reflexivity).
  split; [reflexivity|]. split; [exact Ha|]. split; [exact Hq|].
  exact (X3_only_app_shows_app_frames FilterCases.mixedFrames MoreCases.onlyAppOptions
           [1; 2; 3; 4]%nat 2%nat 2%nat eq_refl Ha eq_refl Hq).
Defined.

Lemma X4_no_app_frames_falls_back_witness :
  Forall (fun p => isApp FilterCases.sixFrames "/app/" p = false)
         (dropInternal FilterCases.sixFrames [1; 2; 3]%nat)
  /\ candidates FilterCases.sixFrames (FilterCases.preferAppOptions 5)
                [1; 2; 3]%nat
     = dropInternal FilterCases.sixFrames [1; 2; 3]%nat.
Proof.
  assert (Hnone : Forall (fun p => isApp FilterCases.sixFrames "/app/" p = false)
                         (dropInternal FilterCases.sixFrames [1; 2; 3]%nat))
    by (vm_compute; repeat constructor).
  split; [exact Hnone|].
  exact (proj1 (X4_no_app_frames_falls_back FilterCases.sixFrames
                  (FilterCases.preferAppOptions 5) [1; 2; 3]%nat Hnone)).
Defined.

Lemma mixed_has_app (limit : Z) :
  List.filter (isApp FilterCases.mixedFrames
                     (AppPattern (FilterCases.preferAppOptions limit)))
              (dropInternal FilterCases.mixedFrames [1; 2; 3; 4]%nat) <> [].
Proof. vm_compute. discriminate. Qed.

Lemma X5_prefer_app_mix_closed_form_witness :
  candidates FilterCases.mixedFrames (FilterCases.preferAppOptions 5)
             [1; 2; 3; 4]%nat
  = [2; 3]%nat.
Proof.
  rewrite (X5_prefer_app_mix_closed_form FilterCases.mixedFrames
             (FilterCases.preferAppOptions 5) [1; 2; 3; 4]%nat
             eq_refl eq_refl (mixed_has_app 5)).
  vm_compute. reflexivity.
Defined.

Lemma X6_prefer_app_zero_limit_shows_nothing_witness :
  (Limit (FilterCases.preferAppOptions 0) <= 0)%Z
  /\ filterFrames FilterCases.mixedFrames (FilterCases.preferAppOptions 0)
                  [1; 2; 3; 4]%nat = [].
Proof.
  assert (Hl : (Limit (FilterCases.preferAppOptions 0) <= 0)%Z)
    by (cbn; lia).
  split; [exact Hl|].
  exact (proj1 (X6_prefer_app_zero_limit_shows_nothing FilterCases.mixedFrames
                  (FilterCases.preferAppOptions 0) [1; 2; 3; 4]%nat
                  eq_refl eq_refl Hl (mixed_has_app 0))).
Defined.

End FilterMore.

(** ** More on argument-name normalization *)

Module NormalizeMore.
Import Normalize NormalizeClosedForm NormalizeFacts.

Lemma renamed_none (args : gmap string Value) (k : string)
      (paramNames : list string) :
  forall (i0 : nat),
    (forall (j : nat) (q : string),
        paramNames !! j = Some q -> paramKey q (i0 + j) <> k) ->
    renamed args paramNames i0 k = None.
Proof.
  induction paramNames as [|q0 rest IH]; intros i0 Hno; [reflexivity|].
  cbn [renamed]. rewrite (IH (S i0)).
  2:{ intros j q Hj. specialize (Hno (S j) q Hj).
      rewrite Nat.add_succ_r in Hno. exact Hno. }
  specialize (Hno O q0 eq_refl). rewrite Nat.add_0_r in Hno.
  apply String.eqb_neq in Hno. rewrite Hno. reflexivity.
Qed.

(** If exactly one index writes the key [k], the first loop leaves under
    [k] the placeholder value of that index. *)
Lemma renamed_at (args : gmap string Value) (k : string)
      (paramNames : list string) :
  forall (i0 j : nat) (q : string),
    paramNames !! j = Some q -> paramKey q (i0 + j) = k ->
    (forall (j' : nat) (q' : string),
        paramNames !! j' = Some q' -> paramKey q' (i0 + j') = k -> j' = j) ->
    renamed args paramNames i0 k = args !! argKey (i0 + j).
Proof.
  induction paramNames as [|q0 rest IH]; intros i0 j q Hj Hk Huniq;
    [discriminate|].
  cbn [renamed]. destruct j as [|j].
  - rewrite (renamed_none args k rest (S i0)).
    + injection Hj as ->. rewrite Nat.add_0_r in *.
      rewrite Hk, String.eqb_refl. reflexivity.
    + intros j' q' Hj' Hk'.
      specialize (Huniq (S j') q' Hj').
      rewrite Nat.add_succ_r in Huniq. specialize (Huniq Hk'). discriminate.
  - rewrite (IH (S i0) j q Hj).
    + rewrite Nat.add_succ_r. cbn [Nat.add].
      destruct (args !! argKey (S (i0 + j))); [reflexivity|].
      destruct (String.eqb_spec (paramKey q0 i0) k) as [Hhead|_]; [|reflexivity].
      specialize (Huniq O q0 eq_refl). rewrite Nat.add_0_r in Huniq.
      specialize (Huniq Hhead). discriminate.
    + rewrite Nat.add_succ_r in Hk. exact Hk.
    + intros j' q' Hj' Hk'.
      specialize (Huniq (S j') q' Hj').
      rewrite Nat.add_succ_r in Huniq. specialize (Huniq Hk').
      injection Huniq as ->. reflexivity.
Qed.

Lemma renamed_some (args : gmap string Value) (k : string) (v : Value)
      (paramNames : list string) :
  forall (i0 : nat),
    renamed args paramNames i0 k = Some v ->
    exists (i : nat), args !! argKey i = Some v.
Proof.
  induction paramNames as [|q0 rest IH]; intros i0 H; [discriminate|].
  cbn [renamed] in H.
  destruct (renamed args rest (S i0) k) as [v'|] eqn:Hrest.
  - injection H as ->. exact (IH (S i0) Hrest).
  - destruct (String.eqb (paramKey q0 i0) k); [|discriminate].
    exists i0. exact H.
Qed.

(** X7. Positional renaming. For a non-empty argument map and parameter
    names none of which starts with "arg": if the i-th parameter is named,
    its name occurs once in the list, the placeholder "arg<i>" is present
    and the caller supplied no key equal to the name, then after
    normalization the value of "arg<i>" stands under the parameter name. *)
Theorem X7_placeholder_moves_to_parameter_name
        (args : gmap string Value) (paramNames : list string)
        (i : nat) (param : string) (v : Value) :
  plainNames paramNames ->
  paramNames !! i = Some param -> param <> "" ->
  (forall (j : nat), paramNames !! j = Some param -> j = i) ->
  args !! argKey i = Some v ->
  args !! param = None ->
  normalizeArgs args paramNames !! param = Some v.
Proof.
  intros Hplain Hi Hparam Huniq Hv Hfree.
  assert (Hpre : HasPrefix param "arg" = false).
  { apply (proj1 (List.Forall_forall _ _) Hplain).
    apply list_elem_of_In. eapply list_elem_of_lookup_2. exact Hi. }
  unfold normalizeArgs.
  destruct ((size args =? 0)%nat || (length paramNames =? 0)%nat) eqn:Hearly.
  - apply orb_true_iff in Hearly as [Hsz|Hlen].
    + apply Nat.eqb_eq, map_size_empty_iff in Hsz. subst args.
      rewrite lookup_empty in Hv. discriminate.
    + apply Nat.eqb_eq in Hlen. destruct paramNames; [discriminate|].
      simpl in Hlen. lia.
  - rewrite copyLoop_lookup, Hpre, Hfree, renameLoop_lookup, lookup_empty.
    rewrite (renamed_at args param paramNames 0 i param Hi).
    + cbn [Nat.add]. rewrite Hv. reflexivity.
    + unfold paramKey. apply String.eqb_neq in Hparam. rewrite Hparam.
      reflexivity.
    + intros j' q' Hj' Hk'. apply Huniq.
      unfold paramKey in Hk'.
      destruct (String.eqb_spec q' "") as [->|_].
      * exfalso. rewrite <- Hk', argKey_prefix in Hpre. discriminate.
      * rewrite <- Hk'. exact Hj'.
Qed.

Lemma X7_placeholder_moves_to_parameter_name_witness :
  normalizeArgs (Args (NormalizeCases.tracedCall !!! 1%nat))
                ["ctx"; ""; "limit"] !! "limit" = Some (VInt 3).
Proof.
  apply (X7_placeholder_moves_to_parameter_name _ _ 2%nat "limit" (VInt 3)).
  - repeat constructor.
  - reflexivity.
  - discriminate.
  - intros [|[|[|j]]] Hj; try reflexivity; cbn in Hj; discriminate.
  - vm_compute. reflexivity.
  - vm_compute. reflexivity.
Defined.

(** X8. Placeholders that remain. After normalization with a non-empty
    list of parameter names none of which starts with "arg", the key
    "arg<i>" is present exactly when the i-th parameter is unnamed and the
    key was present before, with the same value: the placeholders of named
    parameters and those beyond the parameter list (a variadic tail) are
    gone. *)
Theorem X8_remaining_placeholders (args : gmap string Value)
        (paramNames : list string) (i : nat) :
  plainNames paramNames -> paramNames <> [] ->
  normalizeArgs args paramNames !! argKey i
  = match paramNames !! i with
    | Some param => if String.eqb param "" then args !! argKey i else None
    | None => None
    end.
Proof.
  intros Hplain Hne. unfold normalizeArgs.
  destruct (size args =? 0)%nat eqn:Hsz.
  - apply Nat.eqb_eq, map_size_empty_iff in Hsz. subst args. cbn [orb].
    rewrite lookup_empty.
    destruct (paramNames !! i) as [param|]; [|reflexivity].
    destruct (String.eqb param ""); reflexivity.
  - destruct paramNames as [|q rest]; [contradiction|].
    cbn [orb length Nat.eqb].
    apply normalized_argKey. exact Hplain.
Qed.

Lemma X8_remaining_placeholders_witness :
  normalizeArgs (Args (NormalizeCases.tracedCall !!! 1%nat))
                ["ctx"; ""] !! argKey 2 = None
  /\ normalizeArgs (Args (NormalizeCases.tracedCall !!! 1%nat))
                   ["ctx"; ""] !! argKey 1 = Some (VInt 42).
Proof.
  assert (Hplain : plainNames ["ctx"; ""]) by (repeat constructor).
  assert (Hne : ["ctx"; ""] <> @nil string) by discriminate.
  split.
  - rewrite (X8_remaining_placeholders _ _ 2%nat Hplain Hne). reflexivity.
  - rewrite (X8_remaining_placeholders _ _ 1%nat Hplain Hne).
    vm_compute. reflexivity.
Defined.

(** X9. Normalization invents nothing: every value of the normalized
    map was a value of the map before. *)
Theorem X9_normalized_values_come_from_args (args : gmap string Value)
        (paramNames : list string) (k : string) (v : Value) :
  normalizeArgs args paramNames !! k = Some v ->
  exists (k' : string), args !! k' = Some v.
Proof.
  unfold normalizeArgs.
  destruct ((size args =? 0)%nat || (length paramNames =? 0)%nat).
  - intros H. exists k. exact H.
  - rewrite copyLoop_lookup, renameLoop_lookup, lookup_empty.
    intros H.
    assert (Hren : forall (u : Value),
               match renamed args paramNames 0 k with
               | Some v0 => Some v0
               | None => None
               end = Some u -> exists (k' : string), args !! k' = Some u).
    { intros u Hu.
      destruct (renamed args paramNames 0 k) as [v0|] eqn:Hr; [|discriminate].
      injection Hu as ->.
      destruct (renamed_some args k u paramNames 0 Hr) as (i & Hi).
      exists (argKey i). exact Hi. }
    destruct (HasPrefix k "arg"); [exact (Hren v H)|].
    destruct (args !! k) as [v0|] eqn:Hk; [|exact (Hren v H)].
    exists k. rewrite Hk. exact H.
Qed.

Lemma X9_normalized_values_come_from_args_witness :
  exists (k' : string),
    Args (NormalizeCases.tracedCall !!! 1%nat) !! k' = Some (VInt 3).
Proof.
  apply (X9_normalized_values_come_from_args _ ["ctx"; ""; "limit"] "limit").
  vm_compute. reflexivity.
Defined.

End NormalizeMore.

(** ** More on signature resolution *)

Module ResolverMore.
Import Sig Logger ResolverModel ResolverSpec SignatureParts.

Lemma string_app_assoc (a b c : string) : (a +:+ b) +:+ c = a +:+ (b +:+ c).
Proof.
  induction a as [|x a IH]; [reflexivity|].
  change (String x ((a +:+ b) +:+ c) = String x (a +:+ b +:+ c)).
  f_equal. exact IH.
Qed.

Lemma string_app_nil_r (a : string) : a +:+ "" = a.
Proof.
  induction a as [|x a IH]; [reflexivity|].
  change (String x (a +:+ "") = String x a). f_equal. exact IH.
Qed.

(** The rendered signature is the name, the parameter list in
    parentheses, and the result clause. *)
Lemma formatFuncSignature_shape (fn : FuncDecl) :
  formatFuncSignature fn
  = fdName fn +:+ "(" +:+ joinComma (renderedParams fn) +:+ ")"
    +:+ resultClause fn.
Proof.
  unfold formatFuncSignature, renderedParams, resultClause.
  set (txt := joinComma _).
  destruct (fdResults fn) as [[|fld rest]|].
  - rewrite string_app_nil_r. reflexivity.
  - destruct rest as [|fld2 rest].
    + destruct (Names fld); rewrite !string_app_assoc; reflexivity.
    + rewrite !string_app_assoc. reflexivity.
  - rewrite string_app_nil_r. reflexivity.
Qed.

Lemma formatFuncSignature_nonempty (fn : FuncDecl) :
  formatFuncSignature fn <> "".
Proof.
  rewrite formatFuncSignature_shape.
  destruct (fdName fn); simpl; discriminate.
Qed.



(** A lookup on a file that has a cache entry changes nothing. *)
Lemma getSignatureForLocation_cached (w : World) (file : string)
      (entry : option fileSignature) (s : State) :
  signatureCache s !! file = Some entry ->
  forall (line : Z) (functionName : string),
    getSignatureForLocation w file line functionName s
    = Ok (if String.eqb file "" || (line <=? 0)%Z then None
          else match entry with
               | None => None
               | Some e => findFunction (functions e) line functionName
               end) s.
Proof.
  intros Hfile line functionName. unfold getSignatureForLocation.
  destruct (String.eqb file "" || (line <=? 0)%Z); [reflexivity|].
  run_monad. rewrite Hfile. destruct entry; reflexivity.
Qed.

(** What one lookup leaves behind. *)
Lemma getSignatureForLocation_after (w : World) (file : string) (line : Z)
      (functionName : string) (s s1 : State)
      (r : option functionSignature) :
  getSignatureForLocation w file line functionName s = Ok r s1 ->
  frames s1 = frames s
  /\ contexts s1 = contexts s
  /\ (effects s1 = effects s \/ effects s1 = effects s ++ [EvReadFile file])
  /\ (String.eqb file "" || (line <=? 0)%Z = true -> s1 = s /\ r = None)
  /\ (String.eqb file "" || (line <=? 0)%Z = false ->
      exists (entry : option fileSignature),
        signatureCache s1 !! file = Some entry
        /\ r = match entry with
               | None => None
               | Some e => findFunction (functions e) line functionName
               end).
Proof.
  unfold getSignatureForLocation.
  destruct (String.eqb file "" || (line <=? 0)%Z).
  - intros H. injection H as <- <-.
    split; [reflexivity|]. split; [reflexivity|].
    split; [left; reflexivity|].
    split; [intros _; split; reflexivity|discriminate].
  - run_monad. destruct (signatureCache s !! file) as [entry|] eqn:Hfile.
    + intros H.
      assert (Hs : s1 = s) by (destruct entry; injection H as _ <-; reflexivity).
      subst s1.
      split; [reflexivity|]. split; [reflexivity|].
      split; [left; reflexivity|]. split; [discriminate|].
      intros _. exists entry. split; [exact Hfile|].
      destruct entry; injection H as <-; reflexivity.
    + unfold parseFileSignatures. run_monad. intros H.
      assert (Hs : s1 = setCache (<[file := parsed w file]> (signatureCache s))
                                 (setEffects (effects s ++ [EvReadFile file]) s)
                   /\ r = match parsed w file with
                          | None => None
                          | Some e => findFunction (functions e) line functionName
                          end).
      { unfold parsed.
        destruct (readFile w file) as [data|];
          [destruct (parseFile w file data)|];
          injection H as <- <-; split; reflexivity. }
      destruct Hs as [-> ->].
      split; [reflexivity|]. split; [reflexivity|].
      split; [right; reflexivity|]. split; [discriminate|].
      intros _. exists (parsed w file). split; [|reflexivity].
      cbn. apply lookup_insert_eq.
Qed.

(** X11. A file is read and parsed at most once. A lookup with a
    non-empty path and a positive line reads the file at most once, and
    after it every further lookup on that path, for any line and name,
    leaves the whole state as it is: no read, no cache write. This holds
    also when the file could not be read or parsed. *)
Theorem X11_file_parsed_once (w : World) (file : string) (line : Z)
        (functionName : string) (s s1 : State)
        (r : option functionSignature) :
  getSignatureForLocation w file line functionName s = Ok r s1 ->
  String.eqb file "" || (line <=? 0)%Z = false ->
  (effects s1 = effects s \/ effects s1 = effects s ++ [EvReadFile file])
  /\ forall (line' : Z) (functionName' : string),
       exists (r' : option functionSignature),
         getSignatureForLocation w file line' functionName' s1 = Ok r' s1.
Proof.
  intros Hrun Hvalid.
  destruct (getSignatureForLocation_after w file line functionName s s1 r Hrun)
    as (_ & _ & Heff & _ & Hentry).
  split; [exact Heff|].
  destruct (Hentry Hvalid) as (entry & Hcache & _).
  intros line' functionName'. eexists.
  apply (getSignatureForLocation_cached w file entry s1 Hcache).
Qed.

Lemma X11_file_parsed_once_witness :
  getSignatureForLocation overlapWorld "/app/missing.go" 3%Z "" freshState
  = Ok None (setCache {[ "/app/missing.go" := None ]}
                      (setEffects [EvReadFile "/app/missing.go"] freshState))
  /\ forall (line' : Z) (functionName' : string),
       exists (r' : option functionSignature),
         getSignatureForLocation overlapWorld "/app/missing.go" line' functionName'
           (setCache {[ "/app/missing.go" := None ]}
                     (setEffects [EvReadFile "/app/missing.go"] freshState))
         = Ok r' (setCache {[ "/app/missing.go" := None ]}
                           (setEffects [EvReadFile "/app/missing.go"] freshState)).
Proof.
  assert (Hrun : getSignatureForLocation overlapWorld "/app/missing.go" 3%Z ""
                   freshState
                 = Ok None (setCache {[ "/app/missing.go" := None ]}
                              (setEffects [EvReadFile "/app/missing.go"]
                                          freshState)))
    by (vm_compute; reflexivity).
  split; [exact Hrun|].
  exact (proj2 (X11_file_parsed_once overlapWorld "/app/missing.go" 3%Z ""
                  freshState _ None Hrun eq_refl)).
Defined.

Lemma findFunction_unique (fns : list functionSignature) (line : Z)
      (functionName : string) (fn : functionSignature) :
  In fn fns -> accepts line functionName fn = true ->
  (forall (g : functionSignature),
      In g fns -> spans line g = true -> g = fn) ->
  findFunction fns line functionName = Some fn.
Proof.
  intros Hin Hacc Huniq. induction fns as [|g rest IH]; [destruct Hin|].
  rewrite findFunction_cons.
  destruct (accepts line functionName g) eqn:Hg.
  - f_equal. apply Huniq; [left; reflexivity|].
    unfold accepts in Hg. apply andb_true_iff in Hg as [Hg _]. exact Hg.
  - destruct Hin as [->|Hin]; [congruence|].
    apply IH; [exact Hin|].
    intros g' Hg' Hs. apply Huniq; [right; exact Hg'|exact Hs].
Qed.

(** X12. Unambiguous spans resolve to their function. On a cache that
    agrees with the files, if the parsed file has a function whose span
    contains the line and whose name fits the candidate, and no other
    function of the file has a span containing the line, then
    [getSignatureForLocation] returns that function, wherever it stands in
    the file. *)
Theorem X12_unambiguous_span_resolves (w : World) (file : string) (line : Z)
        (functionName : string) (e : fileSignature) (fn : functionSignature)
        (s : State) :
  cacheAgrees w s ->
  file <> "" -> (0 < line)%Z ->
  parsed w file = Some e ->
  In fn (functions e) ->
  accepts line functionName fn = true ->
  (forall (g : functionSignature),
      In g (functions e) -> spans line g = true -> g = fn) ->
  exists (s' : State),
    getSignatureForLocation w file line functionName s = Ok (Some fn) s'.
Proof.
  intros Hc Hfile Hline Hparsed Hin Hacc Huniq.
  destruct (getSignatureForLocation_resolved w file line functionName s Hc)
    as (s' & Hrun & _).
  exists s'. rewrite Hrun. f_equal. unfold resolved.
  apply String.eqb_neq in Hfile. rewrite Hfile.
  replace (line <=? 0)%Z with false by (symmetry; apply Z.leb_gt; lia).
  cbn [orb]. rewrite Hparsed.
  apply findFunction_unique; assumption.
Qed.

(** Two functions on separate lines. *)
Lemma X12_unambiguous_span_resolves_witness :
  exists (s' : State),
    getSignatureForLocation
      (mkWorld (fun _ => Some "source")
               (fun _ _ => Some [DFunc (mkFuncDecl "first" 1%Z 3%Z None None);
                                 DFunc (mkFuncDecl "second" 5%Z 9%Z None None)])
               (fun _ => Some []) (fun fmt _ => fmt) (fun _ => "{}")
               (fun path => path))
      "/app/two.go" 7%Z "main.second" freshState
    = Ok (Some (mkFunctionSignature "second" 5%Z 9%Z "second()" [])) s'.
Proof.
  eapply X12_unambiguous_span_resolves.
  - intros file entry H. cbn in H. rewrite lookup_empty in H. discriminate H.
  - discriminate.
  - lia.
  - reflexivity.
  - right. left. reflexivity.
  - reflexivity.
  - intros g [<-|[<-|[]]] Hs; [discriminate Hs|reflexivity].
Defined.

End ResolverMore.

(** ** Frame signatures and labels *)

Module LabelMore.
Import Sig Logger ResolverModel ResolverSpec SignatureParts ResolverMore.
Import Normalize NormalizeFacts.

Lemma normalizeFrameArgs_signature (h : FrameStore) (p : fptr)
      (paramNames : list string) :
  Signature (normalizeFrameArgs h (Some p) paramNames !!! p)
  = Signature (h !!! p).
Proof.
  rewrite normalizeFrameArgs_unfold.
  destruct ((size (Args (h !!! p)) =? 0)%nat || (length paramNames =? 0)%nat);
    [reflexivity|].
  rewrite lookup_total_insert_eq. reflexivity.
Qed.

Lemma normalizeFrameArgs_other (h : FrameStore) (p q : fptr)
      (paramNames : list string) :
  q <> p -> normalizeFrameArgs h (Some p) paramNames !! q = h !! q.
Proof.
  intros Hne. rewrite normalizeFrameArgs_unfold.
  destruct ((size (Args (h !!! p)) =? 0)%nat || (length paramNames =? 0)%nat);
    [reflexivity|].
  apply lookup_insert_ne. congruence.
Qed.

Lemma findFunction_In (fns : list functionSignature) (line : Z)
      (functionName : string) (fn : functionSignature) :
  findFunction fns line functionName = Some fn -> In fn fns.
Proof.
  intros H. destruct (findFunction_first _ _ _ _ H) as (b & a & -> & _).
  apply in_or_app. right. left. reflexivity.
Qed.

Lemma declSignatures_rendered (decls : list Decl) (fn : functionSignature) :
  In fn (declSignatures decls) ->
  exists (fd : FuncDecl),
    In (DFunc fd) decls
    /\ fn = mkFunctionSignature (fdName fd) (fdPosLine fd) (fdEndLine fd)
                                (formatFuncSignature fd) (extractParamNames fd).
Proof.
  unfold declSignatures. induction decls as [|d rest IH];
    cbn [List.map List.concat]; [intros []|].
  intros Hin. apply in_app_or in Hin as [Hin|Hin].
  - destruct d as [fd|]; [|destruct Hin].
    destruct Hin as [<-|[]]. exists fd. split; [left|]; reflexivity.
  - destruct (IH Hin) as (fd & Hfd & Heq).
    exists fd. split; [right; exact Hfd|exact Heq].
Qed.

Lemma resolved_signature_nonempty (w : World) (file : string) (line : Z)
      (functionName : string) (fn : functionSignature) :
  resolved w file line functionName = Some fn -> signature fn <> "".
Proof.
  unfold resolved, parsed.
  destruct (String.eqb file "" || (line <=? 0)%Z); [discriminate|].
  destruct (readFile w file) as [data|]; [|discriminate].
  destruct (parseFile w file data) as [decls|]; [|discriminate].
  cbn [functions]. intros H. apply findFunction_In in H.
  destruct (declSignatures_rendered decls fn H) as (fd & _ & ->).
  cbn [signature]. apply formatFuncSignature_nonempty.
Qed.

Section WithWorld.
Variable w : World.

(** [resolveFrameSignature] on a non-nil frame, in terms of the lookup it
    makes. *)
Lemma resolveFrameSignature_cached_signature (p : fptr) (s : State) :
  Signature (frames s !!! p) <> "" ->
  resolveFrameSignature w (Some p) s = Ok (Signature (frames s !!! p)) s.
Proof.
  intros Hsig. unfold resolveFrameSignature. run_monad.
  apply String.eqb_neq in Hsig. rewrite Hsig. reflexivity.
Qed.

Lemma resolveFrameSignature_lookup (p : fptr) (s s' : State)
      (r : option functionSignature) :
  Signature (frames s !!! p) = "" ->
  getSignatureForLocation w (File (frames s !!! p)) (Line (frames s !!! p))
                          (Function (frames s !!! p)) s = Ok r s' ->
  resolveFrameSignature w (Some p) s
  = match r with
    | Some fnSig =>
        Ok (signature fnSig)
           (setFrames
              (normalizeFrameArgs
                 (<[p := withSignature (frames s !!! p) (signature fnSig)]>
                    (frames s'))
                 (Some p) (params fnSig))
              s')
    | None => Ok (Function (frames s !!! p)) s'
    end.
Proof.
  intros Hsig Hrun. unfold resolveFrameSignature. run_monad.
  rewrite Hsig. cbn [String.eqb negb]. rewrite Hrun.
  destruct r; reflexivity.
Qed.

(** X13. Memoization. On a cache that agrees with the files, resolving a
    frame's signature always returns, and resolving it again right after
    returns the same text and leaves the whole state as it is: a resolved
    signature is kept on the frame, a miss is kept in the cache, and in
    either case no file is read again. *)
Theorem X13_resolution_is_memoized (p : fptr) (s : State) :
  cacheAgrees w s ->
  exists (sig : string) (s1 : State),
    resolveFrameSignature w (Some p) s = Ok sig s1
    /\ resolveFrameSignature w (Some p) s1 = Ok sig s1
    /\ cacheAgrees w s1.
Proof.
  intros Hc. set (f := frames s !!! p).
  destruct (String.eqb_spec (Signature f) "") as [Hsig|Hsig].
  - destruct (getSignatureForLocation_resolved w (File f) (Line f)
                (Function f) s Hc) as (s' & Hrun & Hc').
    destruct (getSignatureForLocation_after w _ _ _ s s' _ Hrun)
      as (Hfr & _ & _ & Hsame & Hentry).
    rewrite (resolveFrameSignature_lookup p s s' _ Hsig Hrun).
    destruct (resolved w (File f) (Line f) (Function f)) as [fnSig|] eqn:Hres.
    + eexists. eexists. split; [reflexivity|]. split; [|exact Hc'].
      set (s1 := setFrames _ s').
      assert (Hs1 : Signature (frames s1 !!! p) = signature fnSig).
      { unfold s1. cbn [frames setFrames].
        rewrite normalizeFrameArgs_signature, lookup_total_insert_eq.
        reflexivity. }
      rewrite <- Hs1. apply resolveFrameSignature_cached_signature.
      rewrite Hs1. exact (resolved_signature_nonempty w _ _ _ _ Hres).
    + exists (Function f), s'. split; [reflexivity|]. split; [|exact Hc'].
      assert (Hf : frames s' !!! p = f) by (rewrite Hfr; reflexivity).
      assert (Hagain : getSignatureForLocation w (File f) (Line f)
                         (Function f) s' = Ok None s').
      { destruct (String.eqb (File f) "" || (Line f <=? 0)%Z) eqn:Hcond.
        - destruct (Hsame eq_refl) as [-> _]. exact Hrun.
        - destruct (Hentry eq_refl) as (entry & Hcache & Hr).
          rewrite (getSignatureForLocation_cached w _ entry s' Hcache).
          rewrite Hcond, <- Hr. reflexivity. }
      rewrite (resolveFrameSignature_lookup p s' s' None);
        rewrite ?Hf; [reflexivity|exact Hsig|exact Hagain].
  - exists (Signature f), s.
    rewrite (resolveFrameSignature_cached_signature p s Hsig).
    split; [reflexivity|]. split; [reflexivity|exact Hc].
Qed.

(** X14. A resolution miss degrades to the raw function name. On a
    cache that agrees with the files, for a frame with no signature yet
    whose location resolves to none (empty path, line not positive,
    unreadable or unparseable file, no enclosing function), the call
    returns the frame's function name and leaves every frame and every
    trace context as it is. *)
Theorem X14_miss_returns_function_name (p : fptr) (s : State) :
  cacheAgrees w s ->
  Signature (frames s !!! p) = "" ->
  resolved w (File (frames s !!! p)) (Line (frames s !!! p))
           (Function (frames s !!! p)) = None ->
  exists (s1 : State),
    resolveFrameSignature w (Some p) s = Ok (Function (frames s !!! p)) s1
    /\ frames s1 = frames s
    /\ contexts s1 = contexts s.
Proof.
  intros Hc Hsig Hres.
  destruct (getSignatureForLocation_resolved w (File (frames s !!! p))
              (Line (frames s !!! p)) (Function (frames s !!! p)) s Hc)
    as (s' & Hrun & _).
  destruct (getSignatureForLocation_after w _ _ _ s s' _ Hrun)
    as (Hfr & Hctx & _).
  rewrite (resolveFrameSignature_lookup p s s' _ Hsig Hrun), Hres.
  exists s'. split; [reflexivity|]. split; assumption.
Qed.

(** X15. A resolution hit is cached on the frame. On a cache that agrees
    with the files, for a frame with no signature yet whose location
    resolves to a function, the call returns that function's signature,
    stores it on the frame, renames the frame's arguments with the
    function's parameter names, and touches no other frame. *)
Theorem X15_hit_updates_only_that_frame (p : fptr) (s : State)
        (fnSig : functionSignature) :
  cacheAgrees w s ->
  Signature (frames s !!! p) = "" ->
  resolved w (File (frames s !!! p)) (Line (frames s !!! p))
           (Function (frames s !!! p)) = Some fnSig ->
  exists (s1 : State),
    resolveFrameSignature w (Some p) s = Ok (signature fnSig) s1
    /\ Signature (frames s1 !!! p) = signature fnSig
    /\ Args (frames s1 !!! p)
       = normalizeArgs (Args (frames s !!! p)) (params fnSig)
    /\ Function (frames s1 !!! p) = Function (frames s !!! p)
    /\ File (frames s1 !!! p) = File (frames s !!! p)
    /\ Line (frames s1 !!! p) = Line (frames s !!! p)
    /\ (forall (q : fptr), q <> p -> frames s1 !! q = frames s !! q).
Proof.
  intros Hc Hsig Hres.
  destruct (getSignatureForLocation_resolved w (File (frames s !!! p))
              (Line (frames s !!! p)) (Function (frames s !!! p)) s Hc)
    as (s' & Hrun & _).
  destruct (getSignatureForLocation_after w _ _ _ s s' _ Hrun)
    as (Hfr & _).
  rewrite (resolveFrameSignature_lookup p s s' _ Hsig Hrun), Hres.
  eexists. split; [reflexivity|]. cbn [frames setFrames].
  split; [rewrite normalizeFrameArgs_signature, lookup_total_insert_eq;
          reflexivity|].
  split; [rewrite normalizeFrameArgs_args, lookup_total_insert_eq;
          reflexivity|].
  rewrite normalizeFrameArgs_unfold, !lookup_total_insert_eq.
  destruct ((size (Args (withSignature (frames s !!! p) (signature fnSig))) =? 0)%nat
            || (length (params fnSig) =? 0)%nat).
  - rewrite lookup_total_insert_eq.
    repeat split; try reflexivity.
    intros q Hq. rewrite lookup_insert_ne by congruence. rewrite Hfr.
    reflexivity.
  - rewrite lookup_total_insert_eq.
    repeat split; try reflexivity.
    intros q Hq. rewrite !lookup_insert_ne by congruence. rewrite Hfr.
    reflexivity.
Qed.

End WithWorld.

Lemma prefix_nil (s : string) : String.prefix "" s = true.
Proof. destruct s; reflexivity. Qed.

Lemma prefix_char (a c : ascii) (s : string) :
  String.prefix (String a "") (String c s) = if ascii_dec a c then true else false.
Proof.
  transitivity (match ascii_dec a c with
                | left _ => String.prefix "" s
                | right _ => false
                end); [reflexivity|].
  destruct (ascii_dec a c); [apply prefix_nil|reflexivity].
Qed.

Lemma app_cons (c : ascii) (a b : string) :
  String c a +:+ b = String c (a +:+ b).
Proof. reflexivity. Qed.

Lemma Contains_cons (c : ascii) (s sub : string) :
  Contains (String c s) sub = String.prefix sub (String c s) || Contains s sub.
Proof. reflexivity. Qed.

Lemma index_of_paren (name tail : string) :
  Contains name "(" = false ->
  String.index 0 "(" (name +:+ String "("%char tail) = Some (String.length name).
Proof.
  induction name as [|c name IH]; intros Hno.
  - change (("" +:+ String "("%char tail)) with (String "("%char tail).
    cbn [String.index]. rewrite prefix_char.
    destruct (ascii_dec "("%char "("%char); [reflexivity|congruence].
  - rewrite Contains_cons in Hno. apply orb_false_iff in Hno as [Hc Hrest].
    rewrite prefix_char in Hc.
    rewrite app_cons. cbn [String.index String.length].
    rewrite prefix_char.
    destruct (ascii_dec "("%char c); [discriminate|].
    rewrite (IH Hrest). reflexivity.
Qed.

Lemma substring_head (a b : string) :
  String.substring 0 (String.length a) (a +:+ b) = a.
Proof.
  induction a as [|c a IH]; [destruct b; reflexivity|].
  rewrite app_cons. cbn [String.length String.substring]. f_equal. exact IH.
Qed.

Lemma substring_past (a b : string) (n m : nat) :
  String.substring (String.length a + n) m (a +:+ b) = String.substring n m b.
Proof.
  induction a as [|c a IH]; [reflexivity|].
  rewrite app_cons. cbn [String.length Nat.add String.substring]. exact IH.
Qed.

Lemma substring_whole (s : string) :
  String.substring 0 (String.length s) s = s.
Proof.
  induction s as [|c s IH]; [reflexivity|].
  cbn [String.length String.substring]. f_equal. exact IH.
Qed.

Lemma string_length_app (a b : string) :
  String.length (a +:+ b) = (String.length a + String.length b)%nat.
Proof.
  induction a as [|c a IH]; [reflexivity|].
  rewrite app_cons. cbn [String.length Nat.add]. f_equal. exact IH.
Qed.

(** X16. The route label of a frame whose signature was rendered from a
    declaration is the declared function name (the part of the signature
    before the opening parenthesis), and computing it changes nothing. *)
Theorem X16_label_of_rendered_signature (w : World) (p : fptr) (s : State)
        (fd : FuncDecl) :
  Signature (frames s !!! p) = formatFuncSignature fd ->
  Contains (fdName fd) "(" = false ->
  shortFrameLabel w p s = Ok (fdName fd) s.
Proof.
  intros Hsig Hname. unfold shortFrameLabel.
  assert (Hne : Signature (frames s !!! p) <> "")
    by (rewrite Hsig; apply formatFuncSignature_nonempty).
  unfold mbind, M_bind.
  rewrite (resolveFrameSignature_cached_signature w p s Hne), Hsig.
  apply String.eqb_neq in Hne. rewrite Hsig in Hne. rewrite Hne.
  cbn [negb].
  rewrite formatFuncSignature_shape.
  change (fdName fd +:+ "(" +:+ joinComma (renderedParams fd) +:+ ")"
          +:+ resultClause fd)
    with (fdName fd +:+ String "("%char (joinComma (renderedParams fd) +:+ ")"
                                          +:+ resultClause fd)).
  rewrite (index_of_paren _ _ Hname), substring_head. reflexivity.
Qed.

Lemma X16_label_of_rendered_signature_witness :
  shortFrameLabel overlapWorld 1%nat MoreCases.labelledState
  = Ok "worker" MoreCases.labelledState.
Proof.
  exact (X16_label_of_rendered_signature overlapWorld 1%nat
           MoreCases.labelledState
           (mkFuncDecl "worker" 10%Z 20%Z
                       (Some [mkField ["ctx"] "context.Context";
                              mkField ["limit"] "int"])
                       (Some [mkField [] "error"]))
           eq_refl eq_refl).
Defined.

Lemma lastIndexSlash_none (s : string) :
  lastIndexSlash s = None -> Contains s "/" = false.
Proof.
  induction s as [|c s IH]; [reflexivity|].
  cbn [lastIndexSlash]. destruct (lastIndexSlash s); [discriminate|].
  destruct (Ascii.eqb_spec c "/"%char) as [->|Hc]; [discriminate|].
  intros _. rewrite Contains_cons, prefix_char, (IH eq_refl).
  destruct (ascii_dec "/"%char c); [congruence|reflexivity].
Qed.

Lemma lastIndexSlash_some (s : string) :
  forall (i : nat),
    lastIndexSlash s = Some i ->
    exists (dir base : string),
      s = dir +:+ String "/"%char base
      /\ String.length dir = i
      /\ lastIndexSlash base = None.
Proof.
  induction s as [|c s IH]; intros i H; [discriminate|].
  cbn [lastIndexSlash] in H.
  destruct (lastIndexSlash s) as [j|] eqn:Hs.
  - injection H as <-. destruct (IH j eq_refl) as (dir & base & -> & Hlen & Hb).
    exists (String c dir), base. repeat split; [cbn; f_equal; exact Hlen|exact Hb].
  - destruct (Ascii.eqb_spec c "/"%char) as [->|_]; [|discriminate].
    injection H as <-. exists "", s. repeat split. exact Hs.
Qed.

(** X17. The short function name is what follows the last slash: the
    name is a directory part (empty, or ending in a slash) followed by the
    short name, the short name holds no slash, and shortening it again
    changes nothing. ([simplifyFunctionName] of the tracer is the same
    code.) *)
Theorem X17_short_name_is_last_path_element (name : string) :
  (exists (dir : string),
      name = dir +:+ shortFunctionName name
      /\ (dir = "" \/ exists (parent : string), dir = parent +:+ "/"))
  /\ Contains (shortFunctionName name) "/" = false
  /\ shortFunctionName (shortFunctionName name) = shortFunctionName name.
Proof.
  assert (Hfix : forall (base : string),
             lastIndexSlash base = None -> shortFunctionName base = base).
  { intros base Hb. unfold shortFunctionName. rewrite Hb.
    destruct (String.eqb_spec base "") as [->|_]; reflexivity. }
  assert (Hcases :
            (shortFunctionName name = name /\ lastIndexSlash name = None)
            \/ (exists (dir base : string),
                   name = dir +:+ String "/"%char base
                   /\ shortFunctionName name = base
                   /\ lastIndexSlash base = None)).
  { unfold shortFunctionName.
    destruct (String.eqb_spec name "") as [->|Hne]; [left; split; reflexivity|].
    destruct (lastIndexSlash name) as [idx|] eqn:Hidx;
      [|left; split; reflexivity].
    destruct (lastIndexSlash_some name idx Hidx)
      as (dir & base & Hname & Hlen & Hbase).
    right. exists dir, base. split; [exact Hname|]. split; [|exact Hbase].
    rewrite Hname, <- Hlen.
    rewrite substring_past, string_length_app.
    cbn [String.length String.substring].
    replace (String.length dir + S (String.length base)
             - (String.length dir + 1))%nat
      with (String.length base) by lia.
    apply substring_whole. }
  destruct Hcases as [[Hr Hnone]|(dir & base & Hname & Hr & Hbase)];
    rewrite Hr.
  - split; [exists ""; split; [reflexivity|left; reflexivity]|].
    split; [apply lastIndexSlash_none; exact Hnone|exact Hr].
  - split; [|split; [apply lastIndexSlash_none; exact Hbase
                    |apply Hfix; exact Hbase]].
    exists (dir +:+ "/"). split.
    + rewrite string_app_assoc. exact Hname.
    + right. exists dir. reflexivity.
Qed.

Lemma cacheAgrees_empty (w : World) (s : State) :
  signatureCache s = ∅ -> cacheAgrees w s.
Proof. intros He file entry H. rewrite He, lookup_empty in H. discriminate. Qed.

Lemma X13_resolution_is_memoized_witness :
  cacheAgrees overlapWorld MoreCases.resolvableState
  /\ exists (sig : string) (s1 : State),
       resolveFrameSignature overlapWorld (Some 1%nat) MoreCases.resolvableState
       = Ok sig s1
       /\ resolveFrameSignature overlapWorld (Some 1%nat) s1 = Ok sig s1.
Proof.
  assert (Hc : cacheAgrees overlapWorld MoreCases.resolvableState)
    by (apply cacheAgrees_empty; reflexivity).
  split; [exact Hc|].
  destruct (X13_resolution_is_memoized overlapWorld 1%nat
              MoreCases.resolvableState Hc) as (sig & s1 & H1 & H2 & _).
  exists sig, s1. split; assumption.
Defined.

Lemma X14_miss_returns_function_name_witness :
  exists (s1 : State),
    resolveFrameSignature overlapWorld (Some 1%nat) MoreCases.unreadableState
    = Ok "main.gone" s1
    /\ frames s1 = frames MoreCases.unreadableState.
Proof.
  destruct (X14_miss_returns_function_name overlapWorld 1%nat
              MoreCases.unreadableState
              (cacheAgrees_empty overlapWorld MoreCases.unreadableState eq_refl)
              eq_refl eq_refl)
    as (s1 & H1 & H2 & _).
  exists s1. split; assumption.
Defined.

Lemma X15_hit_updates_only_that_frame_witness :
  exists (s1 : State),
    resolveFrameSignature overlapWorld (Some 1%nat) MoreCases.resolvableState
    = Ok "outer()" s1
    /\ Signature (frames s1 !!! 1%nat) = "outer()".
Proof.
  destruct (X15_hit_updates_only_that_frame overlapWorld 1%nat
              MoreCases.resolvableState outerSignature
              (cacheAgrees_empty overlapWorld MoreCases.resolvableState eq_refl)
              eq_refl eq_refl)
    as (s1 & H1 & H2 & _).
  exists s1. split; assumption.
Defined.

End LabelMore.

(** ** More on the trace context *)

Module TraceMore.
Import Trace TraceInvariant TraceSpec.

Lemma int64_small (z : Z) : (- 2 ^ 63 <= z < 2 ^ 63)%Z -> int64 z = z.
Proof.
  intros Hz. unfold int64.
  rewrite Z.mod_small by lia. lia.
Qed.

Lemma int64_succ_pred (z : Z) : int64 (int64 (z + 1) - 1) = int64 z.
Proof.
  unfold int64.
  replace ((z + 1 + 2 ^ 63) mod 2 ^ 64 - 2 ^ 63 - 1 + 2 ^ 63)%Z
    with ((z + 1 + 2 ^ 63) mod 2 ^ 64 - 1)%Z by lia.
  rewrite Zminus_mod_idemp_l.
  replace (z + 1 + 2 ^ 63 - 1)%Z with (z + 2 ^ 63)%Z by lia.
  reflexivity.
Qed.

(** The state [Enter] leaves. *)
Lemma Enter_run (s : State) (p : cptr) (frame : fptr) :
  Enter (Some p) frame s
  = Ok tt (setContexts
             (<[p := mkTraceContext (Frames (contexts s !!! p) ++ [frame])
                       (int64 (Depth (contexts s !!! p) + 1))
                       (StartAt (contexts s !!! p))]> (contexts s)) s).
Proof. reflexivity. Qed.

(** The state [Leave] leaves when the tail of the stack is known. *)
Lemma Leave_run (s : State) (p : cptr) (older : list fptr) (frame : fptr) :
  Frames (contexts s !!! p) = older ++ [frame] ->
  exists (fs : gmap nat Frame),
    Leave (Some p) s
    = Ok (Some frame)
         (setFrames fs
            (setContexts
               (<[p := mkTraceContext older
                         (int64 (Depth (contexts s !!! p) - 1))
                         (StartAt (contexts s !!! p))]> (contexts s)) s)).
Proof.
  intros Hfr. unfold Leave. run_monad. rewrite Hfr, length_app.
  cbn [length].
  replace (length older + 1 =? 0)%nat with false
    by (symmetry; apply Nat.eqb_neq; lia).
  replace (length older + 1 - 1)%nat with (length older) by lia.
  rewrite nth_middle, firstn_app, firstn_all, Nat.sub_diag.
  cbn [firstn]. rewrite app_nil_r.
  cbn [frames setContexts setFrames clock].
  rewrite lookup_total_insert_eq.
  destruct (negb (IsZero (StartTime (withEndTime (frames s !!! frame) (clock s)))));
    eexists; reflexivity.
Qed.

(** X18. Enter then Leave is a round trip on the stack. On any non-nil
    context, leaving right after entering returns the frame just pushed
    and leaves the context with its former frames, its former start time
    and its former depth (as a 64-bit integer); no other context changes. *)
Theorem X18_enter_then_leave (s : State) (p : cptr) (frame : fptr) :
  exists (s' : State),
    (Enter (Some p) frame ≫= fun _ => Leave (Some p)) s = Ok (Some frame) s'
    /\ Frames (contexts s' !!! p) = Frames (contexts s !!! p)
    /\ StartAt (contexts s' !!! p) = StartAt (contexts s !!! p)
    /\ Depth (contexts s' !!! p) = int64 (Depth (contexts s !!! p))
    /\ (forall (q : cptr), q <> p -> contexts s' !! q = contexts s !! q).
Proof.
  unfold mbind, M_bind. rewrite Enter_run.
  set (s1 := setContexts _ s).
  assert (Htail : Frames (contexts s1 !!! p)
                  = Frames (contexts s !!! p) ++ [frame])
    by (unfold s1; cbn [contexts setContexts];
        rewrite lookup_total_insert_eq; reflexivity).
  destruct (Leave_run s1 p _ frame Htail) as (fs & Hleave).
  rewrite Hleave. eexists. split; [reflexivity|].
  cbn [contexts setContexts setFrames].
  rewrite !lookup_total_insert_eq. cbn [Frames StartAt Depth].
  unfold s1. cbn [contexts setContexts].
  rewrite lookup_total_insert_eq. cbn [Frames StartAt Depth].
  repeat split; try reflexivity.
  - apply int64_succ_pred.
  - intros q Hq. rewrite !lookup_insert_ne by congruence. reflexivity.
Qed.

(** X19. Push at the tail, nothing else touched. After [Enter] on a
    non-nil context, [Stack] returns the former stack followed by the new
    frame and [GetCurrentFrame] returns the new frame, neither changing
    the state; every other context, every frame, the signature cache and
    the effects are as before. *)
Theorem X19_enter_pushes_at_tail (s : State) (p : cptr) (frame : fptr) :
  exists (s' : State),
    Enter (Some p) frame s = Ok tt s'
    /\ Stack (Some p) s' = Ok (Frames (contexts s !!! p) ++ [frame]) s'
    /\ GetCurrentFrame (Some p) s' = Ok (Some frame) s'
    /\ (forall (q : cptr), q <> p -> contexts s' !! q = contexts s !! q)
    /\ frames s' = frames s
    /\ signatureCache s' = signatureCache s
    /\ effects s' = effects s.
Proof.
  rewrite Enter_run. eexists. split; [reflexivity|].
  unfold Stack, GetCurrentFrame. run_monad.
  cbn [contexts setContexts]. rewrite !lookup_total_insert_eq.
  cbn [Frames]. rewrite length_app. cbn [length].
  replace (length (Frames (contexts s !!! p)) + 1 =? 0)%nat with false
    by (symmetry; apply Nat.eqb_neq; lia).
  replace (length (Frames (contexts s !!! p)) + 1 - 1)%nat
    with (length (Frames (contexts s !!! p))) by lia.
  rewrite nth_middle.
  repeat split; try reflexivity.
  intros q Hq. rewrite lookup_insert_ne by congruence. reflexivity.
Qed.

(** X20. The depth counter follows the stack. If a context's depth
    equals its number of frames (fewer than 2^63 - 1 of them), the same
    holds after [Enter] and after [Leave], and [GetDepth] returns the
    number of frames. *)
Theorem X20_depth_is_stack_length (s : State) (p : cptr) (frame : fptr) :
  depthOk (contexts s !!! p) ->
  (Z.of_nat (length (Frames (contexts s !!! p))) < 2 ^ 63 - 1)%Z ->
  GetDepth (Some p) s = Ok (Z.of_nat (length (Frames (contexts s !!! p)))) s
  /\ (forall (s' : State),
        Enter (Some p) frame s = Ok tt s' -> depthOk (contexts s' !!! p))
  /\ (forall (r : option fptr) (s' : State),
        Leave (Some p) s = Ok r s' -> depthOk (contexts s' !!! p)).
Proof.
  unfold depthOk. intros Hd Hlen.
  split; [unfold GetDepth; run_monad; rewrite Hd; reflexivity|].
  split.
  - intros s' H. rewrite Enter_run in H. injection H as <-.
    cbn [contexts setContexts]. rewrite lookup_total_insert_eq.
    cbn [Depth Frames]. rewrite length_app. cbn [length].
    rewrite Hd, int64_small by lia. lia.
  - intros r s' H.
    destruct (snoc_view (Frames (contexts s !!! p)))
      as [Hnil|(older & top & Hsnoc)].
    + unfold Leave in H. revert H. run_monad. rewrite Hnil. cbn.
      intros H. injection H as _ <-. rewrite Hnil in *. exact Hd.
    + destruct (Leave_run s p older top Hsnoc) as (fs & Hrun).
      rewrite Hrun in H. injection H as _ <-.
      cbn [contexts setContexts setFrames]. rewrite lookup_total_insert_eq.
      cbn [Depth Frames]. rewrite Hsnoc, length_app in Hd, Hlen.
      cbn [length] in Hd, Hlen.
      rewrite Hd, int64_small by lia. lia.
Qed.

(** X21. A trace context attached to a carrier is the one read back.
    Attaching a context, nil included, to a non-nil carrier and reading it
    back returns that very context and changes nothing: a nil context
    attached explicitly is returned as nil, it does not fall back to the
    global one. Attaching to a nil carrier panics. *)
Theorem X21_attach_then_read_back (ctx : Carrier) (tc : option cptr)
        (s : State) :
  ctx <> NilCarrier ->
  (WithTraceContext ctx tc ≫= FromContext) s = Ok tc s
  /\ WithTraceContext NilCarrier tc s = Panic.
Proof.
  intros Hctx. split; [|reflexivity].
  destruct ctx; [contradiction|reflexivity|reflexivity].
Qed.



Lemma InitGlobalContext_run (s : State) :
  InitGlobalContext s
  = match globalContext s with
    | Some _ => Ok tt s
    | None =>
        Ok tt (setGlobal (Some (fresh (dom (contexts s))))
                 (setContexts (<[fresh (dom (contexts s))
                                 := newContext (clock s)]> (contexts s)) s))
    end.
Proof.
  unfold InitGlobalContext. run_monad.
  destruct (globalContext s); reflexivity.
Qed.

(** X23. The global operations work on one context. Whether or not the
    global context existed, [GlobalEnter] followed by [GlobalStack]
    returns the former global stack (empty if there was none) followed by
    the new frame, and [GlobalEnter] followed by [GlobalLeave] returns the
    new frame; afterwards the global context exists. Initialising twice is
    initialising once, and [GlobalLeave] without a global context returns
    none and changes nothing. *)
Theorem X23_global_operations_compose (s : State) (frame : fptr) :
  (exists (s' : State),
      (GlobalEnter frame ≫= fun _ => GlobalStack) s
      = Ok (globalFrames s ++ [frame]) s'
      /\ globalContext s' <> None)
  /\ (exists (s' : State),
        (GlobalEnter frame ≫= fun _ => GlobalLeave) s = Ok (Some frame) s'
        /\ globalFrames s' = globalFrames s)
  /\ (InitGlobalContext ≫= fun _ => InitGlobalContext) s = InitGlobalContext s
  /\ GlobalLeave (setGlobal None s) = Ok None (setGlobal None s).
Proof.
  assert (Henter : exists (g : cptr) (s1 : State),
             GlobalEnter frame s = Ok tt s1
             /\ globalContext s1 = Some g
             /\ Frames (contexts s1 !!! g) = globalFrames s ++ [frame]).
  { unfold GlobalEnter, globalFrames, mbind at 1, M_bind at 1.
    rewrite InitGlobalContext_run.
    destruct (globalContext s) as [g|] eqn:Hg.
    - exists g. unfold mbind, M_bind, get. rewrite Hg, Enter_run.
      eexists. split; [reflexivity|]. split; [exact Hg|].
      cbn [contexts setContexts]. rewrite lookup_total_insert_eq. reflexivity.
    - exists (fresh (dom (contexts s))).
      unfold mbind, M_bind, get. cbn [globalContext setGlobal].
      rewrite Enter_run. eexists. split; [reflexivity|].
      split; [reflexivity|].
      cbn [contexts setContexts setGlobal].
      rewrite !lookup_total_insert_eq. reflexivity. }
  destruct Henter as (g & s1 & Hrun & Hg1 & Hfr1).
  split; [|split; [|split]].
  - unfold mbind, M_bind. rewrite Hrun.
    unfold GlobalStack, GetGlobalContext, Stack. run_monad. rewrite Hg1.
    exists s1. rewrite Hfr1, Hg1. split; [reflexivity|discriminate].
  - unfold mbind, M_bind. rewrite Hrun.
    unfold GlobalLeave. run_monad. rewrite Hg1.
    destruct (Leave_run s1 g _ frame Hfr1) as (fs & Hleave).
    rewrite Hleave. eexists. split; [reflexivity|].
    unfold globalFrames at 1. cbn [globalContext setFrames setContexts contexts].
    rewrite Hg1, lookup_total_insert_eq. reflexivity.
  - unfold mbind, M_bind. rewrite !InitGlobalContext_run.
    destruct (globalContext s) eqn:Hg.
    + rewrite InitGlobalContext_run, Hg. reflexivity.
    + rewrite InitGlobalContext_run. reflexivity.
  - reflexivity.
Qed.



Lemma X20_depth_is_stack_length_witness :
  depthOk (contexts MoreCases.oneFrameContextState !!! 0%nat)
  /\ GetDepth (Some 0%nat) MoreCases.oneFrameContextState
     = Ok 1%Z MoreCases.oneFrameContextState.
Proof.
  assert (Hd : depthOk (contexts MoreCases.oneFrameContextState !!! 0%nat))
    by reflexivity.
  assert (Hl : (Z.of_nat (length (Frames (contexts MoreCases.oneFrameContextState
                                                   !!! 0%nat)))
                < 2 ^ 63 - 1)%Z)
    by (vm_compute; reflexivity).
  split; [exact Hd|].
  exact (proj1 (X20_depth_is_stack_length MoreCases.oneFrameContextState
                  0%nat 7%nat Hd Hl)).
Defined.

Lemma X21_attach_then_read_back_witness :
  Background <> NilCarrier
  /\ (WithTraceContext Background None ≫= FromContext)
       MoreCases.oneFrameContextState
     = Ok None MoreCases.oneFrameContextState.
Proof.
  assert (H : Background <> NilCarrier) by discriminate.
  split; [exact H|].
  exact (proj1 (X21_attach_then_read_back Background None
                  MoreCases.oneFrameContextState H)).
Defined.

End TraceMore.

(** ** More on the enhanced logger *)

Module LoggerMore.
Import Trace Logger LoggerAPI TraceInvariant TraceSpec.

Lemma quiet_ret {A : Type} (a : A) : quiet (mret a).
Proof.
  intros s. exists a, s, []. split; [reflexivity|].
  split; [rewrite app_nil_r; reflexivity|constructor].
Qed.

Lemma quiet_bind {A B : Type} (m : M A) (f : A -> M B) :
  quiet m -> (forall (a : A), quiet (f a)) -> quiet (m ≫= f).
Proof.
  intros Hm Hf s.
  destruct (Hm s) as (a & s1 & evs1 & Hrun1 & Heff1 & Hq1).
  destruct (Hf a s1) as (b & s2 & evs2 & Hrun2 & Heff2 & Hq2).
  exists b, s2, (evs1 ++ evs2).
  split; [unfold mbind, M_bind; rewrite Hrun1; exact Hrun2|].
  split; [rewrite Heff2, Heff1, app_assoc; reflexivity|].
  apply Forall_app. split; assumption.
Qed.

Lemma quiet_get : quiet get.
Proof.
  intros s. exists s, s, []. split; [reflexivity|].
  split; [rewrite app_nil_r; reflexivity|constructor].
Qed.

Lemma quiet_modify (f : State -> State) :
  (forall (s : State), effects (f s) = effects s) -> quiet (modify f).
Proof.
  intros Hf s. exists tt, (f s), []. split; [reflexivity|].
  split; [rewrite app_nil_r; apply Hf|constructor].
Qed.

Lemma quiet_emit (e : Event) : notLog e = true -> quiet (emit e).
Proof.
  intros He s. exists tt, (setEffects (effects s ++ [e]) s), [e].
  split; [reflexivity|]. split; [reflexivity|].
  constructor; [exact He|constructor].
Qed.

(** Takes a monadic term apart down to its primitives. *)
Ltac quiet_steps :=
  repeat first
    [ apply quiet_ret
    | apply quiet_get
    | apply quiet_emit; reflexivity
    | apply quiet_modify; intros; reflexivity
    | apply quiet_bind; [|intros]
    | match goal with
      | |- quiet (if ?c then _ else _) => destruct c
      | |- quiet (match ?x with _ => _ end) => destruct x
      | |- quiet (let '(_, _) := ?x in _) => destruct x
      end ].

Lemma quiet_loadFrame (p : fptr) : quiet (loadFrame p).
Proof. unfold loadFrame. quiet_steps. Qed.

Lemma quiet_storeFrame (p : fptr) (f : Frame) : quiet (storeFrame p f).
Proof. unfold storeFrame. quiet_steps. Qed.

Lemma quiet_allocFrame (f : Frame) : quiet (allocFrame f).
Proof. unfold allocFrame. quiet_steps. Qed.

Lemma quiet_GetGlobalContext : quiet GetGlobalContext.
Proof. unfold GetGlobalContext, timeNow, allocCtx. quiet_steps. Qed.

Lemma quiet_FromContext (ctx : Carrier) : quiet (FromContext ctx).
Proof.
  unfold FromContext.
  destruct ctx; [apply quiet_GetGlobalContext| |].
  - destruct (CarrierValue Background traceContextKey) as [[tc|v]|];
      [apply quiet_ret|apply quiet_GetGlobalContext..].
  - destruct (CarrierValue (WithValue ctx k c) traceContextKey) as [[tc|v]|];
      [apply quiet_ret|apply quiet_GetGlobalContext..].
Qed.

Lemma quiet_Stack (tc : option cptr) : quiet (Stack tc).
Proof. unfold Stack. destruct tc; unfold loadCtx; quiet_steps. Qed.

Lemma quiet_allocRuntimeFrames (rs : list RuntimeFrame) :
  quiet (allocRuntimeFrames rs).
Proof.
  induction rs as [|r rest IH]; cbn [allocRuntimeFrames]; [apply quiet_ret|].
  apply quiet_bind; [apply quiet_allocFrame|intros p].
  apply quiet_bind; [exact IH|intros ps]. apply quiet_ret.
Qed.

Lemma quiet_getStackFrames (el : EnhancedLogger) (ctx : Carrier) :
  quiet (getStackFrames el ctx).
Proof.
  unfold getStackFrames.
  apply quiet_bind; [apply quiet_FromContext|intros tc].
  apply quiet_bind; [apply quiet_Stack|intros stack].
  destruct (0 <? length stack)%nat; [apply quiet_ret|].
  apply quiet_bind; [apply quiet_emit; reflexivity|intros _].
  apply quiet_bind; [apply quiet_get|intros s].
  apply quiet_allocRuntimeFrames.
Qed.

Section WithWorld.
Variable w : World.

Lemma quiet_getSignatureForLocation (file : string) (line : Z)
      (functionName : string) :
  quiet (getSignatureForLocation w file line functionName).
Proof.
  unfold getSignatureForLocation, parseFileSignatures. quiet_steps.
Qed.

Lemma quiet_resolveFrameSignature (frame : option fptr) :
  quiet (resolveFrameSignature w frame).
Proof.
  unfold resolveFrameSignature. destruct frame as [p|]; [|apply quiet_ret].
  apply quiet_bind; [apply quiet_loadFrame|intros f].
  destruct (negb (String.eqb (Signature f) "")); [apply quiet_ret|].
  apply quiet_bind; [apply quiet_getSignatureForLocation|intros r].
  destruct r as [fnSig|]; [|apply quiet_ret].
  apply quiet_bind; [apply quiet_storeFrame|intros _].
  quiet_steps.
Qed.

Lemma quiet_getCodeSnippet (filename : string) (line contextLines : Z) :
  quiet (getCodeSnippet w filename line contextLines).
Proof. unfold getCodeSnippet. quiet_steps. Qed.

Lemma quiet_formatFrame (el : EnhancedLogger) (frame : fptr) (index : nat) :
  quiet (formatFrame w el frame index).
Proof.
  unfold formatFrame.
  apply quiet_bind; [apply quiet_resolveFrameSignature|intros displayName].
  apply quiet_bind; [apply quiet_loadFrame|intros f].
  apply quiet_bind; [|intros snippetPart; apply quiet_ret].
  destruct ((0 <? ShowSnippet (options el))%Z && negb (String.eqb (File f) ""));
    [|apply quiet_ret].
  apply quiet_bind; [apply quiet_getCodeSnippet|intros r].
  quiet_steps.
Qed.

Lemma quiet_shortFrameLabel (frame : fptr) : quiet (shortFrameLabel w frame).
Proof.
  unfold shortFrameLabel.
  apply quiet_bind; [apply quiet_resolveFrameSignature|intros sig].
  destruct (negb (String.eqb sig "")).
  - destruct (String.index 0 "(" sig); apply quiet_ret.
  - apply quiet_bind; [apply quiet_loadFrame|intros f]. apply quiet_ret.
Qed.

Lemma quiet_buildRouteLine (frames : list fptr) :
  quiet (buildRouteLine w frames).
Proof.
  unfold buildRouteLine.
  destruct (length frames =? 0)%nat; [apply quiet_ret|].
  apply quiet_bind; [apply quiet_shortFrameLabel|intros origin].
  apply quiet_bind; [apply quiet_shortFrameLabel|intros current].
  quiet_steps.
Qed.

Lemma quiet_formatFrames (el : EnhancedLogger) (frames : list fptr) :
  forall (i : nat), quiet (formatFrames w el frames i).
Proof.
  induction frames as [|frame rest IH]; intros i; cbn [formatFrames];
    [apply quiet_ret|].
  apply quiet_bind; [apply quiet_formatFrame|intros part].
  apply quiet_bind; [apply IH|intros parts]. apply quiet_ret.
Qed.

(** What [LogWithStack] does on any state: every effect before the last
    is a file read or a capture of the runtime stack, and the last one is
    one call of the backend at the requested level. *)
Lemma LogWithStack_effects (el : EnhancedLogger) (ctx : Carrier)
      (level message : string) (args : list Arg) (s : State) :
  exists (msg : string) (rest : list Arg) (s' : State) (evs : list Event),
    LogWithStack w el ctx level message args s = Ok tt s'
    /\ effects s' = effects s ++ evs ++ [EvLog (logger el) level msg rest]
    /\ Forall (fun e => notLog e = true) evs
    /\ (configEnabled s = true -> rest = [])
    /\ (configEnabled s = false -> evs = [] /\ msg = message /\ rest = args).
Proof.
  unfold LogWithStack. unfold mbind at 1, M_bind at 1, get at 1.
  destruct (configEnabled s) eqn:Hen; cbn [negb].
  - destruct (quiet_getStackFrames el ctx s)
      as (stack & s1 & evs1 & Hrun1 & Heff1 & Hq1).
    unfold mbind at 1, M_bind at 1. rewrite Hrun1.
    unfold mbind at 1, M_bind at 1, get at 1.
    set (filtered := Filter.filterFrames (frames s1) (options el) stack).
    destruct (quiet_buildRouteLine filtered s1)
      as (route & s2 & evs2 & Hrun2 & Heff2 & Hq2).
    unfold mbind at 1, M_bind at 1. rewrite Hrun2.
    destruct (quiet_formatFrames el filtered 0%nat s2)
      as (parts & s3 & evs3 & Hrun3 & Heff3 & Hq3).
    unfold mbind at 1, M_bind at 1. rewrite Hrun3.
    unfold backendLog, emit, modify.
    eexists. exists []. eexists. exists (evs1 ++ evs2 ++ evs3).
    split; [reflexivity|]. cbn [effects setEffects].
    split; [rewrite Heff3, Heff2, Heff1, <- !app_assoc; reflexivity|].
    split; [repeat (apply Forall_app; split); assumption|].
    split; [reflexivity|discriminate].
  - unfold backendLog, emit, modify.
    exists message, args. eexists. exists []. split; [reflexivity|].
    cbn [effects setEffects app].
    split; [reflexivity|]. split; [constructor|].
    split; [discriminate|]. intros _. repeat split.
Qed.


End WithWorld.


Lemma TrimSuffix_newline (line : string) :
  TrimSuffix (line +:+ newline) newline = line.
Proof.
  unfold TrimSuffix, HasSuffix.
  rewrite LabelMore.string_length_app. cbn [String.length newline].
  replace (1 <=? String.length line + 1)%nat with true
    by (symmetry; apply Nat.leb_le; lia).
  replace (String.length line + 1 - 1)%nat with (String.length line) by lia.
  replace (String.substring (String.length line) 1 (line +:+ newline))
    with newline.
  2:{ rewrite <- (Nat.add_0_r (String.length line)) at 1.
      rewrite LabelMore.substring_past. reflexivity. }
  rewrite String.eqb_refl. cbn [andb].
  apply LabelMore.substring_head.
Qed.

(** X26. The adapter for the standard logger. Whatever is written, the
    adapter reports all of its bytes as written with no error, and the
    backend is called exactly once, last, at level INFO with no format
    arguments. With tracing disabled there is no other effect and the
    message is the written text without its final newline (one newline is
    removed; text that does not end in a newline is passed whole). *)
Theorem X26_writer_logs_once_at_info (w : World) (el : EnhancedLogger)
        (p : string) (s : State) :
  (exists (msg : string) (s' : State) (evs : list Event),
      Write w el p s = Ok (String.length p, None) s'
      /\ effects s' = effects s ++ evs ++ [EvLog (logger el) "INFO" msg []]
      /\ Forall (fun e => notLog e = true) evs
      /\ (if configEnabled s then True
          else evs = [] /\ msg = TrimSuffix p newline))
  /\ (forall (line : string), TrimSuffix (line +:+ newline) newline = line)
  /\ (if HasSuffix p newline then True else TrimSuffix p newline = p).
Proof.
  split; [|split; [exact TrimSuffix_newline|]].
  - destruct (LogWithStack_effects w el Background "INFO"
                (TrimSuffix p newline) [] s)
      as (msg & rest & s' & evs & Hrun & Heff & Hq & Hon & Hoff).
    assert (Hrest : rest = []).
    { destruct (configEnabled s); [apply Hon; reflexivity|].
      destruct (Hoff eq_refl) as (_ & _ & ->). reflexivity. }
    subst rest.
    exists msg, s', evs.
    split; [unfold Write, Info, mbind, M_bind; rewrite Hrun; reflexivity|].
    split; [exact Heff|]. split; [exact Hq|].
    destruct (configEnabled s); [exact I|].
    destruct (Hoff eq_refl) as (He & Hm & _). split; assumption.
  - unfold TrimSuffix. destruct (HasSuffix p newline); [exact I|reflexivity].
Qed.

(** X27. An explicit stack is used as it is. When the carrier holds a
    trace context with at least one frame, [getStackFrames] returns that
    context's stack unchanged and changes nothing: the runtime stack is not
    captured and no frame is created. *)
Theorem X27_explicit_stack_is_verbatim (el : EnhancedLogger) (ctx : Carrier)
        (p : cptr) (s : State) :
  CarrierValue ctx traceContextKey = Some (TraceCtxValue (Some p)) ->
  Frames (contexts s !!! p) <> [] ->
  getStackFrames el ctx s = Ok (Frames (contexts s !!! p)) s.
Proof.
  intros Hv Hne. unfold getStackFrames, FromContext.
  destruct ctx as [| |parent k v]; [discriminate Hv|discriminate Hv|].
  rewrite Hv. unfold Stack. run_monad.
  destruct (Frames (contexts s !!! p)) as [|x l]; [contradiction|].
  reflexivity.
Qed.

Lemma X27_explicit_stack_is_verbatim_witness :
  getStackFrames LoggerCases.demoLogger
                 (WithValue Background traceContextKey (TraceCtxValue (Some 0%nat)))
                 MoreCases.oneFrameContextState
  = Ok [7%nat] MoreCases.oneFrameContextState.
Proof.
  apply (X27_explicit_stack_is_verbatim LoggerCases.demoLogger _ 0%nat).
  - reflexivity.
  - vm_compute. discriminate.
Defined.

(** What the allocation loop of the runtime fall-back leaves. *)
Lemma allocRuntimeFrames_run (rs : list RuntimeFrame) :
  forall (s : State),
    exists (ps : list fptr) (s' : State),
      allocRuntimeFrames rs s = Ok ps s'
      /\ effects s' = effects s
      /\ contexts s' = contexts s
      /\ (forall (q : fptr), is_Some (frames s !! q) ->
                             frames s' !! q = frames s !! q)
      /\ Forall2 (fun p r => frames s' !! p = Some (runtimeFrameOf r)
                             /\ frames s !! p = None) ps rs.
Proof.
  induction rs as [|r rest IH]; intros s.
  - exists [], s. repeat split; constructor.
  - cbn [allocRuntimeFrames]. unfold allocFrame. run_monad.
    set (p := fresh (dom (frames s))).
    set (s1 := setFrames _ s).
    destruct (IH s1) as (ps & s' & Hrun & Heff & Hctx & Hkeep & Hnew).
    rewrite Hrun. exists (p :: ps), s'.
    assert (Hp : frames s !! p = None) by (apply not_elem_of_dom, is_fresh).
    assert (Hp1 : frames s1 !! p = Some (runtimeFrameOf r))
      by (unfold s1; cbn [frames setFrames]; apply lookup_insert_eq).
    split; [reflexivity|]. split; [exact Heff|]. split; [exact Hctx|].
    split.
    + intros q Hq.
      assert (Hqp : q <> p) by (intros ->; rewrite Hp in Hq; destruct Hq; discriminate).
      rewrite Hkeep.
      * unfold s1. cbn [frames setFrames]. apply lookup_insert_ne. congruence.
      * unfold s1. cbn [frames setFrames].
        rewrite lookup_insert_ne by congruence. exact Hq.
    + constructor.
      * split; [|exact Hp]. rewrite Hkeep; [exact Hp1|].
        rewrite Hp1. eexists. reflexivity.
      * eapply Forall2_impl; [exact Hnew|].
        intros q r' [Hq1 Hq2]. split; [exact Hq1|].
        destruct (decide (q = p)) as [->|Hqp]; [congruence|].
        unfold s1 in Hq2. cbn [frames setFrames] in Hq2.
        rewrite lookup_insert_ne in Hq2 by congruence. exact Hq2.
Qed.

(** X28. The runtime fall-back. When the trace context found for the
    carrier has an empty stack, [getStackFrames] captures the runtime
    stack once and returns between one and fifty frames; each is a new
    frame at an address no earlier frame has, with the function, file and
    line of a runtime entry and with no signature and no captured
    arguments; the trace contexts are left as they are. *)
Theorem X28_runtime_fallback_frames (el : EnhancedLogger) (ctx : Carrier)
        (tc : option cptr) (s s1 : State) :
  FromContext ctx s = Ok tc s1 ->
  Stack tc s1 = Ok [] s1 ->
  exists (ps : list fptr) (s' : State),
    getStackFrames el ctx s = Ok ps s'
    /\ (1 <= length ps <= 50)%nat
    /\ effects s' = effects s1 ++ [EvCallers (Skip (options el))]
    /\ contexts s' = contexts s1
    /\ Forall (fun p => frames s1 !! p = None
                        /\ exists (r : RuntimeFrame),
                             frames s' !! p = Some (runtimeFrameOf r)) ps.
Proof.
  intros Hfrom Hstack. unfold getStackFrames.
  rewrite (bind_ok _ _ s s1 tc Hfrom).
  rewrite (bind_ok _ _ s1 s1 [] Hstack).
  cbn [length Nat.ltb Nat.leb]. unfold emit. run_monad.
  set (s2 := setEffects _ s1).
  set (pcs := firstn 50 (skipn (Z.to_nat (Skip (options el))) (runtimeStack s2))).
  set (rs := match pcs with
             | [] => [mkRuntimeFrame "" "" 0%Z]
             | _ => pcs
             end).
  destruct (allocRuntimeFrames_run rs s2)
    as (ps & s' & Hrun & Heff & Hctx & _ & Hnew).
  exists ps, s'. split; [exact Hrun|].
  assert (Hlen : (1 <= length rs <= 50)%nat).
  { assert (Hp : (length pcs <= 50)%nat)
      by (unfold pcs; rewrite length_firstn; lia).
    unfold rs. destruct pcs; simpl in *; lia. }
  split; [rewrite (Forall2_length _ _ _ Hnew); exact Hlen|].
  split; [rewrite Heff; reflexivity|]. split; [rewrite Hctx; reflexivity|].
  clear Hlen Hrun. induction Hnew as [|q r qs rs' [Hq1 Hq2] _ IH]; constructor.
  - split; [exact Hq2|]. exists r. exact Hq1.
  - exact IH.
Qed.

Lemma X28_runtime_fallback_frames_witness :
  exists (ps : list fptr) (s' : State),
    getStackFrames LoggerCases.demoLogger Background LoggerCases.enabledState
    = Ok ps s'
    /\ (1 <= length ps <= 50)%nat.
Proof.
  destruct (X28_runtime_fallback_frames LoggerCases.demoLogger Background
              (Some 0%nat) LoggerCases.enabledState
              (setContexts {[ 0%nat := mkTraceContext [] 0%Z 1000%Z ]}
                           LoggerCases.enabledState))
    as (ps & s' & Hrun & Hlen & _).
  - vm_compute. reflexivity.
  - vm_compute. reflexivity.
  - exists ps, s'. split; assumption.
Defined.



(** X30. A snippet that cannot be made is left out. When [getCodeSnippet]
    fails for a frame's file (unreadable file, line out of range) or gives
    an empty text, [formatFrame] gives the very text it gives with snippets
    switched off; the failure is not reported and the only trace of the
    attempt is what [getCodeSnippet] did to the state. *)
Theorem X30_failed_snippet_is_left_out (w : World) (el : EnhancedLogger)
        (frame : fptr) (index : nat) (n : Z) (text : string)
        (r : option string) (s s1 s2 : State) :
  (0 < n)%Z ->
  formatFrame w (withShowSnippet 0 el) frame index s = Ok text s1 ->
  File (frames s1 !!! frame) <> "" ->
  getCodeSnippet w (File (frames s1 !!! frame)) (Line (frames s1 !!! frame)) n s1
  = Ok r s2 ->
  r = None \/ r = Some "" ->
  formatFrame w (withShowSnippet n el) frame index s = Ok text s2.
Proof.
  intros Hn Hoff Hfile Hsnip Hr. unfold formatFrame in *.
  unfold loadFrame in *. run_monad. cbv beta iota zeta delta [mbind M_bind mret M_ret get] in Hoff.
  destruct (resolveFrameSignature w (Some frame) s) as [name s0|];
    [|discriminate Hoff].
  cbn [withShowSnippet options ShowSnippet ShowMeta] in *.
  change (0 <? 0)%Z with false in Hoff. cbn [andb] in Hoff.
  assert (Hs : s0 = s1) by (injection Hoff; auto). subst s0.
  replace (0 <? n)%Z with true by (symmetry; apply Z.ltb_lt; lia).
  destruct (String.eqb_spec (File (frames s1 !!! frame)) "") as [He|_];
    [contradiction|].
  cbn [andb negb]. rewrite Hsnip.
  injection Hoff as Ht. rewrite <- Ht.
  destruct Hr as [-> | ->]; reflexivity.
Qed.

Lemma X30_failed_snippet_is_left_out_witness :
  exists (text : string) (s1 s2 : State),
    formatFrame ResolverModel.overlapWorld
                (withShowSnippet 0 LoggerCases.demoLogger) 1%nat 0
                MoreCases.unreadableState = Ok text s1
    /\ formatFrame ResolverModel.overlapWorld
                   (withShowSnippet 2 LoggerCases.demoLogger) 1%nat 0
                   MoreCases.unreadableState = Ok text s2.
Proof.
  eexists. eexists. eexists.
  split; [vm_compute; reflexivity|].
  eapply (X30_failed_snippet_is_left_out ResolverModel.overlapWorld
            LoggerCases.demoLogger 1%nat 0%nat 2) with (r := None).
  - lia.
  - vm_compute. reflexivity.
  - vm_compute. discriminate.
  - vm_compute. reflexivity.
  - left. reflexivity.
Defined.

End LoggerMore.
